(** * FireFly: sequenced batch ingestion and subscription delivery

    A shallow embedding of
      - the aggregator ([SequencedBroadcastBatch], [persistBatch],
        [persistBatchData], [persistBatchMessage]),
      - the WebSocket transport ([start], [DeliveryRequest], [ack],
        [connClosed]),
      - the event-stream consumer client ([addEventHandlers], [handleMessage]),
      - the subscription table exercised by [TestSubscriptionsE2EWithDB],
    together with the properties of the design document that concern them.

    Go pointers that may be nil are [option]s, Go's [error] is [option error]
    ([None] is nil), calls into the database plugin are state transformers
    that also emit the call (with its result) on a trace.  Where a caller
    keeps a pointer a function writes through, the function is given once
    more with the object it leaves ([persistBatch_ptr]). *)

From Stdlib Require Import ZArith Ascii.
From Stdlib.Strings Require Import Byte.
From stdpp Require Import base option list strings pretty gmap sorting.

Set Default Proof Using "Type".
Set Warnings "-register-all".
Open Scope string_scope.
Open Scope list_scope.
Open Scope nat_scope.

(** ** Bytes *)

#[global] Instance byte_eq_dec : EqDecision byte := Byte.byte_eq_dec.
#[global] Program Instance byte_countable : Countable byte :=
  inj_countable Byte.to_N Byte.of_N _.
Next Obligation. intros b. apply Byte.of_to_N. Qed.

(** ** fftypes: the records the aggregator handles *)

Module fftypes.

(** [uuid.UUID] is [[16]byte], [Bytes32] is [[32]byte]. *)
Abbreviation UUID := (list byte).
Abbreviation Bytes32 := (list byte).
(** [FFTime]: nanoseconds since the epoch. *)
Abbreviation FFTime := Z.
(** [map[string]interface{}], values kept as their JSON text. *)
Abbreviation JSONObject := (gmap string string).

Definition TransactionTypePin : string := "pin".
Definition TransactionStatusConfirmed : string := "confirmed".

Record TransactionRef := {
  TransactionRef_ID : option UUID;
  TransactionRef_Type : string }.

Record Data := {
  Data_ID : option UUID;
  Data_Hash : option Bytes32;
  Data_Value : string }.

Record MessageHeader := {
  MessageHeader_ID : option UUID;
  MessageHeader_Topic : string }.

Record Message := {
  Message_Header : MessageHeader;
  Message_Hash : option Bytes32;
  Message_BatchID : option UUID;
  Message_Confirmed : option FFTime }.

Record BatchPayload := {
  BatchPayload_TX : TransactionRef;
  BatchPayload_Data : list (option Data);
  BatchPayload_Messages : list (option Message) }.

Record Batch := {
  Batch_ID : option UUID;
  Batch_Namespace : string;
  Batch_Author : string;
  Batch_Hash : option Bytes32;
  Batch_Confirmed : option FFTime;
  Batch_Payload : BatchPayload }.

Record TransactionSubject := {
  TransactionSubject_Type : string;
  TransactionSubject_Author : string;
  TransactionSubject_Namespace : string;
  TransactionSubject_Batch : option UUID }.

Record Transaction := {
  Transaction_ID : option UUID;
  Transaction_Subject : TransactionSubject;
  Transaction_Hash : option Bytes32;
  Transaction_Confirmed : option FFTime;
  Transaction_ProtocolID : string;
  Transaction_Info : JSONObject;
  Transaction_Status : string }.

Record Event := {
  Event_Sequence : Z;
  Event_Type : string;
  Event_Ref : option UUID;
  Event_Namespace : string;
  Event_Created : option FFTime }.

(** Field assignments through a pointer: [batch.Confirmed = now] etc. *)
Definition Batch_setConfirmed (now : FFTime) (b : Batch) : Batch :=
  {| Batch_ID := Batch_ID b; Batch_Namespace := Batch_Namespace b;
     Batch_Author := Batch_Author b; Batch_Hash := Batch_Hash b;
     Batch_Confirmed := Some now; Batch_Payload := Batch_Payload b |}.

(** What [batch.Payload.Messages] holds once its entries were written
    through. *)
Definition Batch_setMessages (ms : list (option Message)) (b : Batch) : Batch :=
  {| Batch_ID := Batch_ID b; Batch_Namespace := Batch_Namespace b;
     Batch_Author := Batch_Author b; Batch_Hash := Batch_Hash b;
     Batch_Confirmed := Batch_Confirmed b;
     Batch_Payload :=
       {| BatchPayload_TX := BatchPayload_TX (Batch_Payload b);
          BatchPayload_Data := BatchPayload_Data (Batch_Payload b);
          BatchPayload_Messages := ms |} |}.

Definition Message_setConfirmed (now : FFTime) (m : Message) : Message :=
  {| Message_Header := Message_Header m; Message_Hash := Message_Hash m;
     Message_BatchID := Message_BatchID m; Message_Confirmed := Some now |}.

Definition Message_setBatchID (id : option UUID) (m : Message) : Message :=
  {| Message_Header := Message_Header m; Message_Hash := Message_Hash m;
     Message_BatchID := id; Message_Confirmed := Message_Confirmed m |}.

Definition Transaction_setHash (h : option Bytes32) (t : Transaction) : Transaction :=
  {| Transaction_ID := Transaction_ID t; Transaction_Subject := Transaction_Subject t;
     Transaction_Hash := h; Transaction_Confirmed := Transaction_Confirmed t;
     Transaction_ProtocolID := Transaction_ProtocolID t;
     Transaction_Info := Transaction_Info t; Transaction_Status := Transaction_Status t |}.

(** The four assignments of [persistBatch] ("Set the updates on the
    transaction"), in one step. *)
Definition Transaction_setUpdates (now : FFTime) (protocolTxId : string)
    (additionalInfo : JSONObject) (t : Transaction) : Transaction :=
  {| Transaction_ID := Transaction_ID t; Transaction_Subject := Transaction_Subject t;
     Transaction_Hash := Transaction_Hash t; Transaction_Confirmed := Some now;
     Transaction_ProtocolID := protocolTxId;
     Transaction_Info := additionalInfo;
     Transaction_Status := TransactionStatusConfirmed |}.

(** The subscription records.  Their declarations are not among the
    sources; the fields are those the sources assign and read. *)
Record SubscriptionRef := {
  SubscriptionRef_Namespace : string;
  SubscriptionRef_Name : string }.

Record SubscriptionFilter := {
  SubscriptionFilter_Events : string;
  SubscriptionFilter_Topic : string;
  SubscriptionFilter_Context : string;
  SubscriptionFilter_Group : string }.

Record SubscriptionOptions := {
  SubscriptionOptions_FirstEvent : option string;
  SubscriptionOptions_BatchEnabled : option bool;
  SubscriptionOptions_BatchTimeout : option Z;
  SubscriptionOptions_BatchSize : option Z }.

Record Subscription := {
  Subscription_ID : option UUID;
  Subscription_Namespace : string;
  Subscription_Name : string;
  Subscription_Transport : string;
  Subscription_Filter : SubscriptionFilter;
  Subscription_Options : SubscriptionOptions;
  Subscription_Created : option FFTime }.

Record WSClientActionStartPayload := {
  WSClientActionStartPayload_Namespace : string;
  WSClientActionStartPayload_Name : string;
  WSClientActionStartPayload_Ephemeral : bool;
  WSClientActionStartPayload_Filter : SubscriptionFilter;
  WSClientActionStartPayload_Options : SubscriptionOptions }.

Definition Subscription_setID (id : option UUID) (s : Subscription) : Subscription :=
  {| Subscription_ID := id; Subscription_Namespace := Subscription_Namespace s;
     Subscription_Name := Subscription_Name s;
     Subscription_Transport := Subscription_Transport s;
     Subscription_Filter := Subscription_Filter s;
     Subscription_Options := Subscription_Options s;
     Subscription_Created := Subscription_Created s |}.

#[global] Instance TransactionRef_eq_dec : EqDecision TransactionRef.
Proof. solve_decision. Defined.
#[global] Instance Data_eq_dec : EqDecision Data.
Proof. solve_decision. Defined.
#[global] Instance MessageHeader_eq_dec : EqDecision MessageHeader.
Proof. solve_decision. Defined.
#[global] Instance Message_eq_dec : EqDecision Message.
Proof. solve_decision. Defined.
#[global] Instance BatchPayload_eq_dec : EqDecision BatchPayload.
Proof. solve_decision. Defined.
#[global] Instance Batch_eq_dec : EqDecision Batch.
Proof. solve_decision. Defined.
#[global] Instance TransactionSubject_eq_dec : EqDecision TransactionSubject.
Proof. solve_decision. Defined.
#[global] Instance Transaction_eq_dec : EqDecision Transaction.
Proof. solve_decision. Defined.
#[global] Instance Event_eq_dec : EqDecision Event.
Proof. solve_decision. Defined.
#[global] Instance SubscriptionFilter_eq_dec : EqDecision SubscriptionFilter.
Proof. solve_decision. Defined.
#[global] Instance SubscriptionOptions_eq_dec : EqDecision SubscriptionOptions.
Proof. solve_decision. Defined.
#[global] Instance Subscription_eq_dec : EqDecision Subscription.
Proof. solve_decision. Defined.

End fftypes.
Import fftypes.

(** ** Errors

    [database.HashMismatch] and [database.IDMismatch] are the two sentinels;
    everything else a plugin returns is a failure carrying its text. *)

Inductive error :=
  | HashMismatch
  | IDMismatch
  | MsgWSInvalidStartAction
  | MsgWSConnectionNotActive (connID : string)
  | ContextCanceled
  | Failure (text : string).

#[global] Instance error_eq_dec : EqDecision error.
Proof. solve_decision. Defined.

(** ** The plugins the aggregator is built over *)

(** [database.Plugin], as far as the aggregator uses it.  Every method is a
    transformer of the store's state [DB] returning Go's result values. *)
Class Plugin (DB : Type) := {
  upsertBatch : Batch → bool → DB → option error * DB;
  getTransactionById : string → UUID → DB → (option Transaction * option error) * DB;
  upsertTransaction : Transaction → bool → DB → option error * DB;
  upsertData : Data → bool → DB → option error * DB;
  upsertMessage : Message → bool → DB → option error * DB;
  (** Modelled from the spec: the gateway's event insert ("the store assigns
      a strictly increasing sequence"); the aggregator never calls it. *)
  insertEvent : Event → DB → option error * DB;
  (** Modelled from the spec: whether [RunAsGroup] is a real transaction
      ("where the underlying store supports transactions"). *)
  supportsTransactions : DB → bool }.

(** [publicstorage.Plugin]: [RetrieveData] yields the payload bytes or fails. *)
Class PublicStorage (PS : Type) := {
  retrieveData : string → PS → (error + list byte) * PS }.

(** Methods of the [fftypes] records whose bodies are not among the sources:
    they are taken as a parameter of the development. *)
Class FFTypes := {
  (** [Hash()] of a [*BatchPayload] *)
  BatchPayload_Hash : BatchPayload → Bytes32;
  (** [Hash()] of a [*TransactionSubject] *)
  TransactionSubject_Hash : TransactionSubject → Bytes32;
  (** [data.Value.Hash(ctx, "value")], returning [(hash, err)] *)
  Value_Hash : string → error + Bytes32;
  (** [Verify(ctx)] of a [*Message] *)
  Message_Verify : Message → option error;
  (** [json.NewDecoder(body).Decode(&batchData)]: an error, or the decoded
      pointer, which is nil for the JSON text [null]. *)
  decodeBatch : list byte → error + option Batch }.

(** One call into a plugin, with the values it returned. *)
Inductive Call :=
  | CallRetrieveData (payloadRef : string) (res : error + list byte)
  | CallUpsertBatch (batch : Batch) (allowHashUpdate : bool) (res : option error)
  | CallGetTransactionById (ns : string) (id : UUID)
      (res : option Transaction * option error)
  | CallUpsertTransaction (tx : Transaction) (allowHashUpdate : bool) (res : option error)
  | CallUpsertData (data : Data) (allowHashUpdate : bool) (res : option error)
  | CallUpsertMessage (msg : Message) (allowHashUpdate : bool) (res : option error)
  | CallInsertEvent (ev : Event) (res : option error).

#[global] Instance Call_eq_dec : EqDecision Call.
Proof. solve_decision. Defined.

(** What can be read off a call. *)
Definition isUpsert (c : Call) : bool :=
  match c with
  | CallUpsertBatch _ _ _ | CallUpsertTransaction _ _ _
  | CallUpsertData _ _ _ | CallUpsertMessage _ _ _ => true
  | _ => false
  end.

Definition isInsertEvent (c : Call) : bool :=
  match c with CallInsertEvent _ _ => true | _ => false end.

(** Upserts of the batch or of its transaction: a sentinel there ends the batch. *)
Definition isBatchLevelUpsert (c : Call) : bool :=
  match c with
  | CallUpsertBatch _ _ _ | CallUpsertTransaction _ _ _ => true
  | _ => false
  end.

Definition allowHashUpdateOf (c : Call) : option bool :=
  match c with
  | CallUpsertBatch _ a _ | CallUpsertTransaction _ a _
  | CallUpsertData _ a _ | CallUpsertMessage _ a _ => Some a
  | _ => None
  end.

(** The [error] a call returned ([None]: nil). *)
Definition errorOf (c : Call) : option error :=
  match c with
  | CallRetrieveData _ (inl e) => Some e
  | CallRetrieveData _ (inr _) => None
  | CallUpsertBatch _ _ e | CallUpsertTransaction _ _ e
  | CallUpsertData _ _ e | CallUpsertMessage _ _ e | CallInsertEvent _ e => e
  | CallGetTransactionById _ _ (_, e) => e
  end.

Definition upsertedMessage (c : Call) : option Message :=
  match c with CallUpsertMessage m _ _ => Some m | _ => None end.

(** ** The aggregator *)

Module aggregator.
Section Aggregator.
Context {DB PS : Type} `{!Plugin DB} `{!PublicStorage PS} `{!FFTypes}.

(** What the aggregator acts on: the database, the public storage, the
    context [a.ctx], of which the only thing that matters is how many
    retry sleeps complete before it is cancelled, and the clock that
    [fftypes.Now()] reads (the passing of time is not modelled). *)
Record World := {
  database : DB;
  publicstorage : PS;
  ctxSleeps : nat;
  clock : FFTime }.

Definition withDatabase (d : DB) (w : World) : World :=
  {| database := d; publicstorage := publicstorage w;
     ctxSleeps := ctxSleeps w; clock := clock w |}.
Definition withPublicStorage (p : PS) (w : World) : World :=
  {| database := database w; publicstorage := p;
     ctxSleeps := ctxSleeps w; clock := clock w |}.
Definition withCtxSleeps (n : nat) (w : World) : World :=
  {| database := database w; publicstorage := publicstorage w;
     ctxSleeps := n; clock := clock w |}.

(** A computation: from a world to its result, the world it leaves, and
    the plugin calls it made, oldest first. *)
Definition M (A : Type) : Type := World → A * World * list Call.

#[global] Instance M_ret : MRet M := λ A a w, (a, w, []).
#[global] Instance M_bind : MBind M := λ A B f m w,
  let '(a, w1, t1) := m w in
  let '(b, w2, t2) := f a w1 in
  (b, w2, t1 ++ t2).

Definition result {A} (r : A * World * list Call) : A := r.1.1.
Definition world {A} (r : A * World * list Call) : World := r.1.2.
Definition trace {A} (r : A * World * list Call) : list Call := r.2.

(** The database calls, each recorded on the trace. *)
Definition UpsertBatch (batch : Batch) (allowHashUpdate : bool) : M (option error) :=
  λ w, let '(err, d) := upsertBatch batch allowHashUpdate (database w) in
       (err, withDatabase d w, [CallUpsertBatch batch allowHashUpdate err]).

Definition GetTransactionById (ns : string) (id : UUID)
    : M (option Transaction * option error) :=
  λ w, let '(res, d) := getTransactionById ns id (database w) in
       (res, withDatabase d w, [CallGetTransactionById ns id res]).

Definition UpsertTransaction (tx : Transaction) (allowHashUpdate : bool)
    : M (option error) :=
  λ w, let '(err, d) := upsertTransaction tx allowHashUpdate (database w) in
       (err, withDatabase d w, [CallUpsertTransaction tx allowHashUpdate err]).

Definition UpsertData (data : Data) (allowHashUpdate : bool) : M (option error) :=
  λ w, let '(err, d) := upsertData data allowHashUpdate (database w) in
       (err, withDatabase d w, [CallUpsertData data allowHashUpdate err]).

Definition UpsertMessage (msg : Message) (allowHashUpdate : bool) : M (option error) :=
  λ w, let '(err, d) := upsertMessage msg allowHashUpdate (database w) in
       (err, withDatabase d w, [CallUpsertMessage msg allowHashUpdate err]).

Definition RetrieveData (payloadRef : string) : M (error + list byte) :=
  λ w, let '(res, p) := retrieveData payloadRef (publicstorage w) in
       (res, withPublicStorage p w, [CallRetrieveData payloadRef res]).

(** [fftypes.Now()] *)
Definition Now : M FFTime := λ w, (clock w, w, []).

(** [for i, x := range xs { if err = f(i, x); err != nil { return err } }] *)
Fixpoint rangeUntilError {A} (f : nat → A → M (option error)) (i : nat) (xs : list A)
    : M (option error) :=
  match xs with
  | [] => mret None
  | x :: rest =>
      err ← f i x;
      match err with
      | Some e => mret (Some e)
      | None => rangeUntilError f (S i) rest
      end
  end.

(** [persistBatchData]: the log lines are left out; [i] only feeds them. *)
Definition persistBatchData (batch : Batch) (i : nat) (data : option Data)
    : M (option error) :=
  match data with
  | None => mret None (* skip data entry *)
  | Some data =>
      match Value_Hash (Data_Value data) with
      | inl _ => mret None (* skip data entry *)
      | inr hash =>
          if decide (Data_Hash data = Some hash) then
            (* Insert the data, ensuring the hash doesn't change *)
            err ← UpsertData data false;
            match err with
            | Some e =>
                if decide (e = HashMismatch) then mret None (* skip this data entry *)
                else mret (Some e) (* retryable *)
            | None => mret None
            end
          else mret None (* skip data entry *)
      end
  end.

(** [persistBatchMessage] *)
Definition persistBatchMessage (batch : Batch) (now : FFTime) (i : nat)
    (msg : option Message) : M (option error) :=
  match msg with
  | None => mret None (* skip entry *)
  | Some msg =>
      match Message_Verify msg with
      | Some _ => mret None (* skip message entry *)
      | None =>
          (* Set the confirmed timestamp on the message *)
          let msg := Message_setConfirmed now msg in
          let msg := Message_setBatchID (Batch_ID batch) msg in
          (* Insert the message, ensuring the hash doesn't change *)
          err ← UpsertMessage msg false;
          match err with
          | Some e =>
              if decide (e = HashMismatch) then mret None (* skip this entry *)
              else mret (Some e) (* retryable *)
          | None => mret None
          end
      end
  end.

(** The condition of the [else if] on an existing transaction record. *)
Definition subjectMismatch (tx : Transaction) (author : string) (batch : Batch)
    (batchID : UUID) : bool :=
  bool_decide (TransactionSubject_Type (Transaction_Subject tx) ≠ TransactionTypePin)
  || bool_decide (TransactionSubject_Author (Transaction_Subject tx) ≠ author)
  || bool_decide (TransactionSubject_Namespace (Transaction_Subject tx)
                  ≠ Batch_Namespace batch)
  || match TransactionSubject_Batch (Transaction_Subject tx) with
     | None => true
     | Some b => bool_decide (b ≠ batchID)
     end.

(** The record built when "we're the first to write the transaction record
    on this node". *)
Definition newTransaction (batch : Batch) (author : string) : Transaction :=
  let tx :=
    {| Transaction_ID := TransactionRef_ID (BatchPayload_TX (Batch_Payload batch));
       Transaction_Subject :=
         {| TransactionSubject_Type := TransactionTypePin;
            TransactionSubject_Author := author;
            TransactionSubject_Namespace := Batch_Namespace batch;
            TransactionSubject_Batch := Batch_ID batch |};
       Transaction_Hash := None; Transaction_Confirmed := None;
       Transaction_ProtocolID := ""; Transaction_Info := ∅;
       Transaction_Status := "" |} in
  Transaction_setHash (Some (TransactionSubject_Hash (Transaction_Subject tx))) tx.

(** [persistBatch] from "Set the updates on the transaction" to its end. *)
Definition persistBatchWithTransaction (batch : Batch) (now : FFTime)
    (protocolTxId : string) (additionalInfo : JSONObject) (tx : Transaction)
    : M (option error) :=
  let tx := Transaction_setUpdates now protocolTxId additionalInfo tx in
  (* Upsert the transaction, ensuring the hash does not change *)
  err ← UpsertTransaction tx false;
  match err with
  | Some e =>
      if decide (e = HashMismatch) then mret None (* skip this batch *)
      else mret (Some e) (* retryable *)
  | None =>
      (* Insert the data entries *)
      err ← rangeUntilError (persistBatchData batch) 0
              (BatchPayload_Data (Batch_Payload batch));
      match err with
      | Some e => mret (Some e)
      | None =>
          (* Insert the message entries *)
          err ← rangeUntilError (persistBatchMessage batch now) 0
                  (BatchPayload_Messages (Batch_Payload batch));
          match err with
          | Some e => mret (Some e)
          | None => mret None
          end
      end
  end.

(** [persistBatch] *)
Definition persistBatch (batch : Batch) (author : string)
    (protocolTxId : string) (additionalInfo : JSONObject) : M (option error) :=
  now ← Now;
  match Batch_ID batch, TransactionRef_ID (BatchPayload_TX (Batch_Payload batch)) with
  | Some batchID, Some txID =>
      (* Verify the hash calculation *)
      let hash := BatchPayload_Hash (Batch_Payload batch) in
      if decide (Batch_Hash batch = Some hash) then
        (* Verify the author matches *)
        if decide (Batch_Author batch = author) then
          (* Set confirmed on the batch *)
          let batch := Batch_setConfirmed now batch in
          (* Upsert the batch itself, ensuring the hash does not change *)
          err ← UpsertBatch batch false;
          match err with
          | Some e =>
              if decide (e = HashMismatch) then mret None (* skip this batch *)
              else mret (Some e) (* retryable *)
          | None =>
              (* Get any existing record for the batch transaction record *)
              '(tx, _) ← GetTransactionById (Batch_Namespace batch) txID;
              match tx with
              | None =>
                  persistBatchWithTransaction batch now protocolTxId additionalInfo
                    (newTransaction batch author)
              | Some tx =>
                  if subjectMismatch tx author batch batchID
                  then mret None (* skip this batch *)
                  else persistBatchWithTransaction batch now protocolTxId
                         additionalInfo tx
              end
          end
        else mret None (* skip this batch *)
      else mret None (* skip this batch *)
  | _, _ => mret None (* skip this batch *)
  end.

(** ** The objects behind the pointers

    [persistBatch] writes through its [batch] pointer ([batch.Confirmed =
    now]) and [persistBatchMessage] through [msg] ([msg.Confirmed = now],
    [msg.BatchID = batch.ID]).  The caller holds the same pointers, so it
    sees these writes, and so does the next attempt when the call is
    retried.  The definitions below are the functions above once more, now
    returning with the error the object as the call leaves it.  The entries
    of [batch.Payload.Messages] are taken to be distinct objects, as the
    JSON decoder allocates them. *)

(** [persistBatchMessage], with [*msg] afterwards. *)
Definition persistBatchMessage_ptr (batch : Batch) (now : FFTime) (i : nat)
    (msg : option Message) : M (option error * option Message) :=
  match msg with
  | None => mret (None, None) (* skip entry *)
  | Some msg =>
      match Message_Verify msg with
      | Some _ => mret (None, Some msg) (* skip message entry *)
      | None =>
          (* Set the confirmed timestamp on the message *)
          let msg := Message_setConfirmed now msg in
          let msg := Message_setBatchID (Batch_ID batch) msg in
          (* Insert the message, ensuring the hash doesn't change *)
          err ← UpsertMessage msg false;
          match err with
          | Some e =>
              if decide (e = HashMismatch) then mret (None, Some msg)
              else mret (Some e, Some msg)
          | None => mret (None, Some msg)
          end
      end
  end.

(** The [for ... range] loop over pointers, with the objects afterwards:
    those reached are as [f] left them, those after an error untouched. *)
Fixpoint rangeUntilError_ptr {A} (f : nat → A → M (option error * A)) (i : nat)
    (xs : list A) : M (option error * list A) :=
  match xs with
  | [] => mret (None, [])
  | x :: rest =>
      '(err, x) ← f i x;
      match err with
      | Some e => mret (Some e, x :: rest)
      | None =>
          '(err, rest) ← rangeUntilError_ptr f (S i) rest;
          mret (err, x :: rest)
      end
  end.

(** [persistBatch] from "Set the updates on the transaction" to its end,
    with [*batch] afterwards.  [persistBatchData] writes through no
    pointer. *)
Definition persistBatchWithTransaction_ptr (batch : Batch) (now : FFTime)
    (protocolTxId : string) (additionalInfo : JSONObject) (tx : Transaction)
    : M (option error * Batch) :=
  let tx := Transaction_setUpdates now protocolTxId additionalInfo tx in
  err ← UpsertTransaction tx false;
  match err with
  | Some e =>
      if decide (e = HashMismatch) then mret (None, batch)
      else mret (Some e, batch)
  | None =>
      err ← rangeUntilError (persistBatchData batch) 0
              (BatchPayload_Data (Batch_Payload batch));
      match err with
      | Some e => mret (Some e, batch)
      | None =>
          '(err, msgs) ← rangeUntilError_ptr (persistBatchMessage_ptr batch now) 0
                           (BatchPayload_Messages (Batch_Payload batch));
          mret (err, Batch_setMessages msgs batch)
      end
  end.

(** [persistBatch], with [*batch] afterwards. *)
Definition persistBatch_ptr (batch : Batch) (author : string)
    (protocolTxId : string) (additionalInfo : JSONObject) : M (option error * Batch) :=
  now ← Now;
  match Batch_ID batch, TransactionRef_ID (BatchPayload_TX (Batch_Payload batch)) with
  | Some batchID, Some txID =>
      let hash := BatchPayload_Hash (Batch_Payload batch) in
      if decide (Batch_Hash batch = Some hash) then
        if decide (Batch_Author batch = author) then
          (* Set confirmed on the batch *)
          let batch := Batch_setConfirmed now batch in
          err ← UpsertBatch batch false;
          match err with
          | Some e =>
              if decide (e = HashMismatch) then mret (None, batch)
              else mret (Some e, batch)
          | None =>
              '(tx, _) ← GetTransactionById (Batch_Namespace batch) txID;
              match tx with
              | None =>
                  persistBatchWithTransaction_ptr batch now protocolTxId additionalInfo
                    (newTransaction batch author)
              | Some tx =>
                  if subjectMismatch tx author batch batchID
                  then mret (None, batch)
                  else persistBatchWithTransaction_ptr batch now protocolTxId
                         additionalInfo tx
              end
          end
        else mret (None, batch)
      else mret (None, batch)
  | _, _ => mret (None, batch)
  end.

(** Modelled from the spec: [RunAsGroup] of the database plugin, whose body
    is not among the sources: "all mutations within a persistBatch either
    commit or roll back together, where the underlying store supports
    transactions".  [X] is what the function literal leaves behind the
    pointers it captured: a rollback restores the database, not the memory
    of the process. *)
Definition RunAsGroup {X} (fn : M (option error * X)) : M (option error * X) :=
  λ w, let '((err, x), w1, t) := fn w in
       match err with
       | None => ((None, x), w1, t)
       | Some e =>
           ((Some e, x),
            if supportsTransactions (database w)
            then withDatabase (database w) w1 else w1,
            t)
       end.

(** Modelled from the spec: [retry.Do], whose body is not among the
    sources: it "returns the last error when retry=false or err=nil, else
    sleeps and retries; returns immediately with ctx.Err() if the context
    is cancelled during a sleep".  [X] is the variable the closure
    captures and assigns; the delays themselves are not modelled, only
    whether the sleep completes. *)
Fixpoint retryAttempts {X} (sleeps attempt : nat)
    (fn : nat → X → M (bool * option error * X)) (x : X) : M (option error * X) :=
  λ w, let '((retry, err, x1), w1, t1) := fn attempt x w in
       if retry && bool_decide (err ≠ None) then
         match sleeps with
         | 0 => ((Some ContextCanceled, x1), w1, t1)
         | S n =>
             let '(r, w2, t2) :=
               retryAttempts n (S attempt) fn x1 (withCtxSleeps n w1) in
             (r, w2, t1 ++ t2)
         end
       else ((err, x1), w1, t1).

(** Modelled from the spec: [retry.Do] on the context of the aggregator,
    attempts counted from 1. *)
Definition retry_Do {X} (fn : nat → X → M (bool * option error * X)) (x : X)
    : M (option error * X) :=
  λ w, retryAttempts (ctxSleeps w) 1 fn x w.

(** A Go byte slice, as far as a slice expression and [copy] see it: its
    elements, and the elements of its backing array between its length and
    its capacity. *)
Record ByteSlice := {
  elems : list byte;
  spare : list byte }.

Definition len (a : ByteSlice) : nat := length (elems a).
Definition cap (a : ByteSlice) : nat := length (elems a ++ spare a).

(** Go's simple slice expression [a[low:high]] on a slice: the indices are
    in range when [0 <= low <= high <= cap(a)], whatever the length of [a]
    is; [None] is the run-time panic "slice bounds out of range". *)
Definition sliceExpr (a : ByteSlice) (low high : nat) : option ByteSlice :=
  if bool_decide (low ≤ high ∧ high ≤ cap a)
  then Some {| elems := take (high - low) (drop low (elems a ++ spare a));
               spare := drop high (elems a ++ spare a) |}
  else None.

(** Go's [copy(dst, src)]: the value of [dst] afterwards. *)
Definition copy (dst : list byte) (src : ByteSlice) : list byte :=
  take (length dst) (elems src) ++ drop (len src) dst.

(** How a call ends: it returns, or the goroutine panics. *)
Inductive RuntimePanic := SliceBoundsOutOfRange | NilPointerDereference.
Inductive Outcome := Returned (err : option error) | Panicked (p : RuntimePanic).

(** [blockchain.BroadcastBatch].  Its declaration is not among the sources;
    [BatchID] is sliced, so it is taken as the most general operand of a
    slice expression, a byte slice with its length and its capacity, as
    the ledger plugin hands it over. *)
Record BroadcastBatch := {
  BatchID : ByteSlice;
  BatchPaylodRef : string }.

(** [SequencedBroadcastBatch].  [batchID] only feeds a log line.  A nil
    [batchData] makes [persistBatch] panic on its first dereference, on
    the first attempt.  The second function literal captures the pointer
    [batchData]: every attempt is handed the batch as the attempt before
    left it. *)
Definition SequencedBroadcastBatch (batch : BroadcastBatch) (author : string)
    (protocolTxId : string) (additionalInfo : JSONObject) : M Outcome :=
  match sliceExpr (BatchID batch) 0 16 with
  | None => mret (Panicked SliceBoundsOutOfRange)
  | Some first16 =>
      let batchID : UUID := copy (replicate 16 "000"%byte) first16 in
      '(err, body) ← retry_Do (λ attempt _,
          res ← RetrieveData (BatchPaylodRef batch);
          match res with
          | inl err => mret (true, Some err, None)
          | inr body => mret (false, None, Some body)
          end) None;
      match err, body with
      | Some err, _ => mret (Returned (Some err))
      | None, None => mret (Panicked NilPointerDereference)
      | None, Some body =>
          match decodeBatch body with
          | inl _ => mret (Returned None) (* log and swallow unprocessable data *)
          | inr None => mret (Panicked NilPointerDereference)
          | inr (Some batchData) =>
              '(err, _) ← retry_Do (λ attempt batchData,
                  '(err, batchData) ← RunAsGroup
                      (persistBatch_ptr batchData author protocolTxId additionalInfo);
                  mret (bool_decide (err ≠ None), err, batchData)) batchData;
              mret (Returned err)
          end
      end
  end.

End Aggregator.
End aggregator.

(** ** An in-memory persistence gateway

    The database plugin itself is not among the sources.  The design
    document gives its contract: upserts by primary key, returning "the
    sentinel [HashMismatch] when [allowHashUpdate=false] and an existing
    row's hash differs"; events receive "a strictly increasing sequence"
    assigned at insert time. *)

Module memdb.

(** Modelled from the spec: the gateway's tables ("batches, transactions,
    data, messages, events"); [readFailure], when set, makes reads fail the
    way a lost connection does. *)
Record Store := {
  batches : gmap UUID Batch;
  transactions : gmap (string * UUID) Transaction;
  data : gmap UUID Data;
  messages : gmap UUID Message;
  events : list Event;
  readFailure : option error }.

Definition empty : Store :=
  {| batches := ∅; transactions := ∅; data := ∅; messages := ∅;
     events := []; readFailure := None |}.

Definition failingReads (e : error) (s : Store) : Store :=
  {| batches := batches s; transactions := transactions s; data := data s;
     messages := messages s; events := events s; readFailure := Some e |}.

(** Modelled from the spec: the decision every upsert shares, "the sentinel
    [HashMismatch] when [allowHashUpdate=false] and an existing row's hash
    differs". *)
Definition hashConflict (existing : option (option Bytes32)) (new : option Bytes32)
    (allowHashUpdate : bool) : bool :=
  match existing with
  | Some h => negb allowHashUpdate && bool_decide (h ≠ new)
  | None => false
  end.

Definition missingID : option error := Some (Failure "missing id").

(** Modelled from the spec: [UpsertBatch], by the batch id. *)
Definition upsertBatch (b : Batch) (allowHashUpdate : bool) (s : Store)
    : option error * Store :=
  match Batch_ID b with
  | None => (missingID, s)
  | Some id =>
      if hashConflict (Batch_Hash <$> batches s !! id) (Batch_Hash b) allowHashUpdate
      then (Some HashMismatch, s)
      else (None,
            {| batches := <[id := b]> (batches s); transactions := transactions s;
               data := data s; messages := messages s; events := events s;
               readFailure := readFailure s |})
  end.

(** Modelled from the spec: [GetTransactionById], "any existing
    Transaction(batch.namespace, payload.tx.id)". *)
Definition getTransactionById (ns : string) (id : UUID) (s : Store)
    : (option Transaction * option error) * Store :=
  match readFailure s with
  | Some e => ((None, Some e), s)
  | None => ((transactions s !! (ns, id), None), s)
  end.

(** Modelled from the spec: [UpsertTransaction], by namespace and id. *)
Definition upsertTransaction (t : Transaction) (allowHashUpdate : bool) (s : Store)
    : option error * Store :=
  match Transaction_ID t with
  | None => (missingID, s)
  | Some id =>
      let key := (TransactionSubject_Namespace (Transaction_Subject t), id) in
      if hashConflict (Transaction_Hash <$> transactions s !! key)
           (Transaction_Hash t) allowHashUpdate
      then (Some HashMismatch, s)
      else (None,
            {| batches := batches s; transactions := <[key := t]> (transactions s);
               data := data s; messages := messages s; events := events s;
               readFailure := readFailure s |})
  end.

(** Modelled from the spec: [UpsertData], by the data id. *)
Definition upsertData (d : Data) (allowHashUpdate : bool) (s : Store)
    : option error * Store :=
  match Data_ID d with
  | None => (missingID, s)
  | Some id =>
      if hashConflict (Data_Hash <$> data s !! id) (Data_Hash d) allowHashUpdate
      then (Some HashMismatch, s)
      else (None,
            {| batches := batches s; transactions := transactions s;
               data := <[id := d]> (data s); messages := messages s;
               events := events s; readFailure := readFailure s |})
  end.

(** Modelled from the spec: [UpsertMessage], by the id in the header. *)
Definition upsertMessage (m : Message) (allowHashUpdate : bool) (s : Store)
    : option error * Store :=
  match MessageHeader_ID (Message_Header m) with
  | None => (missingID, s)
  | Some id =>
      if hashConflict (Message_Hash <$> messages s !! id) (Message_Hash m)
           allowHashUpdate
      then (Some HashMismatch, s)
      else (None,
            {| batches := batches s; transactions := transactions s;
               data := data s; messages := <[id := m]> (messages s);
               events := events s; readFailure := readFailure s |})
  end.

(** Modelled from the spec: the event insert; "the store assigns a
    strictly increasing sequence", here one more than the number of events
    stored. *)
Definition insertEvent (e : Event) (s : Store) : option error * Store :=
  let e' := {| Event_Sequence := Z.of_nat (S (length (events s)));
               Event_Type := Event_Type e; Event_Ref := Event_Ref e;
               Event_Namespace := Event_Namespace e;
               Event_Created := Event_Created e |} in
  (None,
   {| batches := batches s; transactions := transactions s; data := data s;
      messages := messages s; events := events s ++ [e'];
      readFailure := readFailure s |}).

#[global] Instance plugin : Plugin Store :=
  Build_Plugin Store upsertBatch getTransactionById upsertTransaction
    upsertData upsertMessage insertEvent (λ _, true).

(** Modelled from the spec: a content store that "flaps then recovers":
    the first [outages] retrievals fail. *)
Record Storage := {
  contents : gmap string (list byte);
  outages : nat }.

(** Modelled from the spec: "retrieveData(ctx, ref)", the bytes under the
    reference. *)
Definition retrieveData (payloadRef : string) (p : Storage)
    : (error + list byte) * Storage :=
  match outages p with
  | S n => (inl (Failure "unavailable"), {| contents := contents p; outages := n |})
  | 0 =>
      match contents p !! payloadRef with
      | Some body => (inr body, p)
      | None => (inl (Failure "not found"), p)
      end
  end.

#[global] Instance storage : PublicStorage Storage :=
  Build_PublicStorage Storage retrieveData.

End memdb.

(** ** JSON values and their text *)

Module json.

(** A JS object keeps its keys in insertion order: an association list. *)
Inductive Value :=
  | JNull
  | JBool (b : bool)
  | JNumber (n : Z)
  | JString (s : string)
  | JArray (items : list Value)
  | JObject (fields : list (string * Value)).

Definition field (k : string) (v : Value) : option Value :=
  match v with
  | JObject fields => snd <$> List.find (λ kv, bool_decide (kv.1 = k)) fields
  | _ => None
  end.

Definition hexDigit (n : N) : ascii :=
  default "0"%char (String.get (N.to_nat n) "0123456789abcdef").

Definition quoteChar : ascii := "034"%char.
Definition backslash : ascii := "092"%char.

(** One character inside a JSON string, as [JSON.stringify] writes it. *)
Definition escapeChar (c : ascii) : string :=
  let n := N_of_ascii c in
  let short (x : ascii) := String backslash (String x EmptyString) in
  let unicode := String backslash (String "u" (String "0" (String "0"
                   (String (hexDigit (n / 16)) (String (hexDigit (n mod 16))
                      EmptyString))))) in
  if bool_decide (n = 34%N) then short quoteChar
  else if bool_decide (n = 92%N) then short backslash
  else if bool_decide (n = 8%N) then short "b"%char
  else if bool_decide (n = 9%N) then short "t"%char
  else if bool_decide (n = 10%N) then short "n"%char
  else if bool_decide (n = 12%N) then short "f"%char
  else if bool_decide (n = 13%N) then short "r"%char
  else if bool_decide (n < 32)%N then unicode
  else String c EmptyString.

Fixpoint escape (s : string) : string :=
  match s with
  | EmptyString => EmptyString
  | String c rest => escapeChar c +:+ escape rest
  end.

Definition quoted (s : string) : string :=
  String quoteChar (escape s +:+ String quoteChar EmptyString).

Fixpoint joinWith (sep : string) (parts : list string) : string :=
  match parts with
  | [] => EmptyString
  | [p] => p
  | p :: rest => p +:+ sep +:+ joinWith sep rest
  end.

(** The compact text of a value, as [JSON.stringify] writes it. *)
Fixpoint render (v : Value) : string :=
  match v with
  | JNull => "null"
  | JBool true => "true"
  | JBool false => "false"
  | JNumber n => pretty n
  | JString s => quoted s
  | JArray items => "[" +:+ joinWith "," (List.map render items) +:+ "]"
  | JObject fields =>
      "{" +:+ joinWith ","
                (List.map (λ kv, quoted (fst kv) +:+ ":" +:+ render (snd kv)) fields)
          +:+ "}"
  end.

Definition JSON_stringify : Value → string := render.

End json.
Import json.

(** ** The event-stream consumer client ([event-streams.ts]) *)

Module event_streams.

Record Config := {
  wsEndpoint : string;
  topic : string;
  user : string;
  password : string }.

Record IEventStreamMessage := {
  signature : string;
  data : Value }.

(** What the client imports and the sources do not contain: the JSON
    parser applied to a whole frame ([None]: it throws, or the value cannot
    be iterated), the handlers (which may throw: [false]) acting on their
    own state [H], and the contract event signatures. *)
Class Imports (H : Type) := {
  JSON_parse : string → option (list IEventStreamMessage);
  handleMemberRegisteredEvent : Value → H → H * bool;
  handleAssetDefinitionCreatedEvent : Value → H → H * bool;
  MEMBER_REGISTERED : string;
  DESCRIBED_STRUCTURED_ASSET_DEFINITION_CREATED : string;
  DESCRIBED_UNSTRUCTURED_ASSET_DEFINITION_CREATED : string;
  STRUCTURED_ASSET_DEFINITION_CREATED : string;
  UNSTRUCTURED_ASSET_DEFINITION_CREATED : string }.

Section Client.
Context {H : Type} `{!Imports H} (config : Config).

(** The module state: [disconnectionDetected], what [ws.send] has written
    (oldest first), the reconnections scheduled by [setTimeout], and the
    handlers' state. *)
Record Client := {
  disconnectionDetected : bool;
  sent : list string;
  reconnections : nat;
  handlers : H }.

Definition ws_send (frame : string) (c : Client) : Client :=
  {| disconnectionDetected := disconnectionDetected c;
     sent := sent c ++ [frame];
     reconnections := reconnections c;
     handlers := handlers c |}.

(** The object literals of the two frames the client writes. *)
Definition listenFrame : Value :=
  JObject [("type", JString "listen"); ("topic", JString (topic config))].

Definition ackFrame : Value :=
  JObject [("type", JString "ack"); ("topic", JString (topic config))].

(** The [switch] of [handleMessage] on one element of the array. *)
Definition dispatch (message : IEventStreamMessage) (h : H) : H * bool :=
  if bool_decide (signature message = MEMBER_REGISTERED) then
    handleMemberRegisteredEvent (data message) h
  else if bool_decide (signature message = DESCRIBED_STRUCTURED_ASSET_DEFINITION_CREATED)
       || bool_decide (signature message = DESCRIBED_UNSTRUCTURED_ASSET_DEFINITION_CREATED)
       || bool_decide (signature message = STRUCTURED_ASSET_DEFINITION_CREATED)
       || bool_decide (signature message = UNSTRUCTURED_ASSET_DEFINITION_CREATED) then
    handleAssetDefinitionCreatedEvent (data message) h
  else (h, true).

Fixpoint forOf (messageArray : list IEventStreamMessage) (h : H) : H * bool :=
  match messageArray with
  | [] => (h, true)
  | message :: rest =>
      let '(h1, ok) := dispatch message h in
      if ok then forOf rest h1 else (h1, false)
  end.

(** [handleMessage]: [false] when the promise is rejected. *)
Definition handleMessage (message : string) (h : H) : H * bool :=
  match JSON_parse message with
  | None => (h, false)
  | Some messageArray => forOf messageArray h
  end.

(** The listener on ['open']. *)
Definition onOpen (c : Client) : Client :=
  ws_send (JSON_stringify listenFrame)
    {| disconnectionDetected := false; sent := sent c;
       reconnections := reconnections c; handlers := handlers c |}.

(** The listener on ['close']: the timer is kept as a pending reconnection. *)
Definition onClose (c : Client) : Client :=
  {| disconnectionDetected := true; sent := sent c;
     reconnections := S (reconnections c); handlers := handlers c |}.

(** The listener on ['message'], run to completion: the frame is written
    only once [handleMessage] has resolved. *)
Definition onMessage (message : string) (c : Client) : Client :=
  let '(h, ok) := handleMessage message (handlers c) in
  let c1 := {| disconnectionDetected := disconnectionDetected c; sent := sent c;
               reconnections := reconnections c; handlers := h |} in
  if ok then ws_send (JSON_stringify ackFrame) c1 else c1.

(** [addEventHandlers]: the listeners it puts on the socket; the one on
    ['error'] only logs. *)
Record Listeners := {
  on_open : Client → Client;
  on_close : Client → Client;
  on_message : string → Client → Client;
  on_error : string → Client → Client }.

Definition addEventHandlers : Listeners :=
  {| on_open := onOpen; on_close := onClose; on_message := onMessage;
     on_error := λ _ c, c |}.

(** The frames one ['message'] event makes the client write. *)
Definition framesSentOn (message : string) (c : Client) : list string :=
  drop (length (sent c)) (sent (on_message addEventHandlers message c)).

End Client.

(** The frame shape of the protocol, [{type:"ack", id}]. *)
Definition isAckWithId (frame : string) : Prop :=
  ∃ id : Value, frame = JSON_stringify (JObject [("type", JString "ack"); ("id", id)]).

End event_streams.

(** ** The WebSocket transport ([websockets.go]) *)

Module websockets.

(** [events.Callbacks], as far as [start] uses it; [CB] is the state of the
    connection manager behind it. *)
Class Callbacks (CB : Type) := {
  EphemeralSubscription :
    string → SubscriptionFilter → SubscriptionOptions → CB → option error * CB;
  RegisterConnection :
    string → (SubscriptionRef → bool) → CB → option error * CB }.

(** One call into the connection manager. *)
Inductive CallbackCall :=
  | CallEphemeralSubscription (connID : string) (filter : SubscriptionFilter)
      (options : SubscriptionOptions)
  | CallRegisterConnection (connID : string) (matcher : SubscriptionRef → bool).

Section Start.
Context {CB : Type} `{!Callbacks CB}.

(** The function literal handed to [RegisterConnection]. *)
Definition matcher (start : WSClientActionStartPayload) (sr : SubscriptionRef) : bool :=
  bool_decide (SubscriptionRef_Namespace sr = WSClientActionStartPayload_Namespace start)
  && bool_decide (SubscriptionRef_Name sr = WSClientActionStartPayload_Name start).

(** [start]: the error returned, the connection manager afterwards, and the
    calls made into it.  The named result [err] is never assigned, so the
    last [return err] returns nil whatever [RegisterConnection] answered. *)
Definition start (connID : string) (start : WSClientActionStartPayload) (cb : CB)
    : option error * CB * list CallbackCall :=
  if WSClientActionStartPayload_Ephemeral start then
    let '(err, cb1) :=
      EphemeralSubscription connID (WSClientActionStartPayload_Filter start)
        (WSClientActionStartPayload_Options start) cb in
    (err, cb1,
     [CallEphemeralSubscription connID (WSClientActionStartPayload_Filter start)
        (WSClientActionStartPayload_Options start)])
  else if bool_decide (WSClientActionStartPayload_Namespace start = "")
          || bool_decide (WSClientActionStartPayload_Name start = "") then
    (Some MsgWSInvalidStartAction, cb, [])
  else
    let '(_, cb1) := RegisterConnection connID (matcher start) cb in
    (None, cb1, [CallRegisterConnection connID (matcher start)]).

End Start.

(** A connection manager that only records what it is told. *)
Record Recorder := {
  ephemeral : list (string * SubscriptionFilter * SubscriptionOptions);
  registered : list (string * (SubscriptionRef → bool)) }.

#[global] Instance recorder : Callbacks Recorder :=
  Build_Callbacks Recorder
    (λ connID filter options cb,
       (None, {| ephemeral := ephemeral cb ++ [(connID, filter, options)];
                 registered := registered cb |}))
    (λ connID m cb,
       (None, {| ephemeral := ephemeral cb;
                 registered := registered cb ++ [(connID, m)] |})).

End websockets.

(** ** The subscription table

    [UpsertSubscription] and [GetSubscription] of the SQL layer are not
    among the sources, only their test is. *)

Module sqlcommon.

(** Modelled from the spec: the subscriptions, "unique by (namespace,
    name)", and the source the generated ids are drawn from. *)
Record Table := {
  subscriptions : gmap (string * string) Subscription;
  uuids : N }.

Definition empty : Table := {| subscriptions := ∅; uuids := 1 |}.

(** The sixteen bytes of [n], most significant first. *)
Definition uuidOfN (n : N) : UUID :=
  (λ i : nat, default "000"%byte (Byte.of_N ((n / 256 ^ N.of_nat (15 - i)) mod 256)%N))
    <$> seq 0 16.

(** Modelled from the spec: [fftypes.NewUUID()], the "generated id", drawn
    from the table's source of identifiers. *)
Definition NewUUID (t : Table) : UUID * Table :=
  (uuidOfN (uuids t), {| subscriptions := subscriptions t; uuids := N.succ (uuids t) |}).

Definition key (s : Subscription) : string * string :=
  (Subscription_Namespace s, Subscription_Name s).

Definition store (s : Subscription) (t : Table) : Table :=
  {| subscriptions := <[key s := s]> (subscriptions t); uuids := uuids t |}.

(** Modelled from the spec: [UpsertSubscription], "if an existing row has
    the same (namespace, name), update in place; if the caller-supplied id
    is non-null and differs from the stored id, fail with IDMismatch;
    otherwise insert"; a subscription created without an id is stored "with
    generated id".  The flag is given no role there, and has none here.  As
    in the test, the upsert leaves the stored id in the caller's record.
    The results: the error, the caller's record afterwards, the table
    afterwards. *)
Definition UpsertSubscription (sub : Subscription) (allowExisting : bool) (t : Table)
    : option error * Subscription * Table :=
  match subscriptions t !! key sub with
  | Some row =>
      match Subscription_ID sub with
      | Some id =>
          if decide (Subscription_ID row = Some id)
          then (None, sub, store sub t)
          else (Some IDMismatch, sub, t)
      | None =>
          let sub := Subscription_setID (Subscription_ID row) sub in
          (None, sub, store sub t)
      end
  | None =>
      match Subscription_ID sub with
      | Some _ => (None, sub, store sub t)
      | None =>
          let '(id, t) := NewUUID t in
          let sub := Subscription_setID (Some id) sub in
          (None, sub, store sub t)
      end
  end.

(** Modelled from the spec: [GetSubscription], "getSubscription(namespace,
    name) → Subscription | null". *)
Definition GetSubscription (ns name : string) (t : Table)
    : option Subscription * option error :=
  (subscriptions t !! (ns, name), None).

End sqlcommon.

(** ** The vocabulary of the aggregator's properties *)

Module aggregator_spec.
Import aggregator.

(** How [persistBatch] and its helpers turn the error of an upsert into
    their own: the sentinel is swallowed, anything else is handed back. *)
Definition returned (err : option error) : option error :=
  match err with
  | Some e => if decide (e = HashMismatch) then None else Some e
  | None => None
  end.

(** What a call's result makes of the run: [Some r] ends it at once with
    [r]; [None] lets it go on. *)
Definition verdict (c : Call) : option (option error) :=
  if isUpsert c then
    match errorOf c with
    | Some e =>
        if decide (e = HashMismatch)
        then (if isBatchLevelUpsert c then Some None else None)
        else Some (Some e)
    | None => None
    end
  else None.

(** A run is classified when its first ending call is its last call and
    fixes what is returned, and nil is returned when no call ends it. *)
Fixpoint Classified (r : option error) (t : list Call) : Prop :=
  match t with
  | [] => r = None
  | c :: rest =>
      match verdict c with
      | Some v => rest = [] ∧ r = v
      | None => Classified r rest
      end
  end.

(** The calls [persistBatch] can make: one of five, its upserts passing
    [false]. *)
Inductive persistBatchCall : Call → Prop :=
  | pbc_batch b e : persistBatchCall (CallUpsertBatch b false e)
  | pbc_get ns id res : persistBatchCall (CallGetTransactionById ns id res)
  | pbc_tx tx e : persistBatchCall (CallUpsertTransaction tx false e)
  | pbc_data d e : persistBatchCall (CallUpsertData d false e)
  | pbc_msg m e : persistBatchCall (CallUpsertMessage m false e).

(** An entry function keeps to the classification when what it returns is
    what its calls decide, and a nil return means none of them ended it. *)
Definition keepsClassification {DB PS A}
    (run : A → @World DB PS → option error * @World DB PS * list Call) : Prop :=
  ∀ x w, Classified (result (run x w)) (trace (run x w))
         ∧ (result (run x w) = None → Forall (λ c, verdict c = None) (trace (run x w))).

Section WithTypes.
Context `{!FFTypes}.

(** The subject an existing transaction record must carry. *)
Definition subjectMatches (tx : Transaction) (author : string) (batch : Batch) : Prop :=
  TransactionSubject_Type (Transaction_Subject tx) = TransactionTypePin
  ∧ TransactionSubject_Author (Transaction_Subject tx) = author
  ∧ TransactionSubject_Namespace (Transaction_Subject tx) = Batch_Namespace batch
  ∧ TransactionSubject_Batch (Transaction_Subject tx) ≠ None
  ∧ TransactionSubject_Batch (Transaction_Subject tx) = Batch_ID batch.

(** A message entry as [persistBatchMessage] hands it to the store. *)
Definition confirmedMessage (batch : Batch) (now : FFTime) (msg : Message) : Message :=
  Message_setBatchID (Batch_ID batch) (Message_setConfirmed now msg).

(** The entries of the payload that are non-null and verify, as handed to
    the store, in payload order. *)
Definition verifiedMessages (batch : Batch) (now : FFTime) : list Message :=
  omap (λ entry : option Message,
          msg ← entry;
          match Message_Verify msg with
          | None => Some (confirmedMessage batch now msg)
          | Some _ => None
          end)
       (BatchPayload_Messages (Batch_Payload batch)).

End WithTypes.

(** An event of the form the design document gives for a message. *)
Definition confirmsMessage (ns : string) (msg : Message) (ev : Event) : Prop :=
  Event_Type ev = "message-confirmed"
  ∧ Event_Ref ev = MessageHeader_ID (Message_Header msg)
  ∧ Event_Namespace ev = ns.

(** Such an event was handed to the store during a run with trace [t]. *)
Definition eventInserted (ns : string) (msg : Message) (t : list Call) : Prop :=
  ∃ ev res, CallInsertEvent ev res ∈ t ∧ confirmsMessage ns msg ev.

End aggregator_spec.

(** ** Worked data: the scenarios of the design document *)

Module scenario.
Import aggregator.

(** Stand-ins for the [fftypes] methods: a payload hashes to its transaction
    id behind a tag, a subject to its batch id behind another, a value to
    its bytes; a message verifies when it carries a hash; a payload decodes
    by table. *)
Definition types (payloads : list (list byte * option Batch)) : FFTypes := {|
  BatchPayload_Hash p :=
    "001"%byte :: default [] (TransactionRef_ID (BatchPayload_TX p));
  TransactionSubject_Hash s := "002"%byte :: default [] (TransactionSubject_Batch s);
  Value_Hash v :=
    if decide (v = EmptyString) then inl (Failure "no value")
    else inr (String.list_byte_of_string v);
  Message_Verify m :=
    match Message_Hash m with
    | Some _ => None
    | None => Some (Failure "message has no hash")
    end;
  decodeBatch body :=
    match List.find (λ kv, bool_decide (kv.1 = body)) payloads with
    | Some kv => inr kv.2
    | None => inl (Failure "invalid character")
    end |}.

Definition B1 : UUID := replicate 15 "000"%byte ++ ["177"%byte].
Definition T1 : UUID := replicate 15 "000"%byte ++ ["161"%byte].
Definition D1 : UUID := replicate 15 "000"%byte ++ ["209"%byte].
Definition M1 : UUID := replicate 15 "000"%byte ++ ["081"%byte].
Definition M2 : UUID := replicate 15 "000"%byte ++ ["082"%byte].

Definition data1 : Data :=
  {| Data_ID := Some D1; Data_Hash := Some (String.list_byte_of_string "v");
     Data_Value := "v" |}.

Definition message1 : Message :=
  {| Message_Header := {| MessageHeader_ID := Some M1; MessageHeader_Topic := "t" |};
     Message_Hash := Some ["077"%byte]; Message_BatchID := None;
     Message_Confirmed := None |}.

Definition payload1 : BatchPayload :=
  {| BatchPayload_TX :=
       {| TransactionRef_ID := Some T1; TransactionRef_Type := TransactionTypePin |};
     BatchPayload_Data := [Some data1];
     BatchPayload_Messages := [Some message1] |}.

(** Scenario 1, "happy path": batch [B1] by author ["A"]. *)
Definition batch1 : Batch :=
  {| Batch_ID := Some B1; Batch_Namespace := "ns1"; Batch_Author := "A";
     Batch_Hash := Some ("001"%byte :: T1); Batch_Confirmed := None;
     Batch_Payload := payload1 |}.

Definition body1 : list byte := String.list_byte_of_string "batch1".

#[global] Instance types1 : FFTypes := types [(body1, Some batch1)].

Definition world0 : @World memdb.Store memdb.Storage :=
  {| database := memdb.empty;
     publicstorage := {| memdb.contents := {[ "ref1" := body1 ]}; memdb.outages := 0 |};
     ctxSleeps := 3; clock := 1000%Z |}.

(** The same world with a content store that fails twice before it
    answers (scenario 6). *)
Definition worldFlapping : @World memdb.Store memdb.Storage :=
  withPublicStorage
    {| memdb.contents := {[ "ref1" := body1 ]}; memdb.outages := 2 |} world0.

(** The same world with a database whose reads fail. *)
Definition worldFailingReads : @World memdb.Store memdb.Storage :=
  withDatabase (memdb.failingReads (Failure "pop") memdb.empty) world0.

Definition broadcast1 : BroadcastBatch :=
  {| BatchID := {| elems := B1 ++ replicate 16 "000"%byte; spare := [] |};
     BatchPaylodRef := "ref1" |}.

(** What the happy path hands to the store. *)
Definition confirmedBatch1 : Batch := Batch_setConfirmed 1000 batch1.
Definition transaction1 : Transaction :=
  Transaction_setUpdates 1000 "0x1" ∅ (newTransaction confirmedBatch1 "A").
Definition confirmedMessage1 : Message :=
  Message_setBatchID (Some B1) (Message_setConfirmed 1000 message1).

Definition happyTrace : list Call :=
  [ CallUpsertBatch confirmedBatch1 false None;
    CallGetTransactionById "ns1" T1 (None, None);
    CallUpsertTransaction transaction1 false None;
    CallUpsertData data1 false None;
    CallUpsertMessage confirmedMessage1 false None ].

(** A store that already holds batch [B1], data [D1] and message [M1] under
    other hashes. *)
Definition staleBatch1 : Batch :=
  {| Batch_ID := Some B1; Batch_Namespace := "ns1"; Batch_Author := "A";
     Batch_Hash := Some ["009"%byte]; Batch_Confirmed := None;
     Batch_Payload := payload1 |}.
Definition staleData1 : Data :=
  {| Data_ID := Some D1; Data_Hash := Some ["009"%byte]; Data_Value := "w" |}.
Definition staleMessage1 : Message :=
  {| Message_Header := {| MessageHeader_ID := Some M1; MessageHeader_Topic := "t" |};
     Message_Hash := Some ["009"%byte]; Message_BatchID := None;
     Message_Confirmed := None |}.

Definition worldStaleBatch : @World memdb.Store memdb.Storage :=
  withDatabase (memdb.upsertBatch staleBatch1 true memdb.empty).2 world0.

Definition worldStaleEntries : @World memdb.Store memdb.Storage :=
  withDatabase
    (memdb.upsertMessage staleMessage1 true
       (memdb.upsertData staleData1 true memdb.empty).2).2
    world0.

(** An existing transaction record for [T1] that pins another batch. *)
Definition foreignTransaction1 : Transaction :=
  {| Transaction_ID := Some T1;
     Transaction_Subject :=
       {| TransactionSubject_Type := TransactionTypePin;
          TransactionSubject_Author := "A";
          TransactionSubject_Namespace := "ns1";
          TransactionSubject_Batch := Some M2 |};
     Transaction_Hash := Some ("002"%byte :: M2);
     Transaction_Confirmed := None; Transaction_ProtocolID := "0x0";
     Transaction_Info := ∅; Transaction_Status := "confirmed" |}.

Definition worldForeignTransaction : @World memdb.Store memdb.Storage :=
  withDatabase (memdb.upsertTransaction foreignTransaction1 true memdb.empty).2 world0.

(** A start action for the durable subscription [(ns1, sub1)], one without
    a name, and an ephemeral one without either. *)
Definition noFilter : SubscriptionFilter :=
  {| SubscriptionFilter_Events := ""; SubscriptionFilter_Topic := "";
     SubscriptionFilter_Context := ""; SubscriptionFilter_Group := "" |}.
Definition noOptions : SubscriptionOptions :=
  {| SubscriptionOptions_FirstEvent := None; SubscriptionOptions_BatchEnabled := None;
     SubscriptionOptions_BatchTimeout := None; SubscriptionOptions_BatchSize := None |}.

Definition startDurable : WSClientActionStartPayload :=
  {| WSClientActionStartPayload_Namespace := "ns1";
     WSClientActionStartPayload_Name := "sub1";
     WSClientActionStartPayload_Ephemeral := false;
     WSClientActionStartPayload_Filter := noFilter;
     WSClientActionStartPayload_Options := noOptions |}.
Definition startUnnamed : WSClientActionStartPayload :=
  {| WSClientActionStartPayload_Namespace := "ns1";
     WSClientActionStartPayload_Name := "";
     WSClientActionStartPayload_Ephemeral := false;
     WSClientActionStartPayload_Filter := noFilter;
     WSClientActionStartPayload_Options := noOptions |}.
Definition startEphemeral : WSClientActionStartPayload :=
  {| WSClientActionStartPayload_Namespace := "";
     WSClientActionStartPayload_Name := "";
     WSClientActionStartPayload_Ephemeral := true;
     WSClientActionStartPayload_Filter := noFilter;
     WSClientActionStartPayload_Options := noOptions |}.

Definition noConnections : websockets.Recorder :=
  {| websockets.ephemeral := []; websockets.registered := [] |}.

(** Two events: a member registration, and a token transfer, which the
    client has no handler for. *)
Definition memberRegistered : event_streams.IEventStreamMessage :=
  {| event_streams.signature := "MemberRegistered(address,string)";
     event_streams.data := JObject [("member", JString "0xabc")] |}.

Definition tokenTransfer : event_streams.IEventStreamMessage :=
  {| event_streams.signature := "Transfer(address,address,uint256)";
     event_streams.data := JObject [("value", JNumber 5)] |}.

(** The JSON text of a frame that delivers [events]: an array with one
    object [{"signature": ..., "data": ...}] per event. *)
Definition frameOf (events : list event_streams.IEventStreamMessage) : string :=
  JSON_stringify
    (JArray ((λ ev, JObject [("signature", JString (event_streams.signature ev));
                             ("data", event_streams.data ev)]) <$> events)).

(** The frames of the scenario. *)
Definition frames : list (list event_streams.IEventStreamMessage) :=
  [ []; [memberRegistered]; [tokenTransfer]; [tokenTransfer; memberRegistered] ].

(** A consumer client whose handlers count the events they are given.  Its
    parser stands in for [JSON.parse] on the frames of the scenario, each
    the JSON text of an array of events, which it maps to that array; it
    is applied to no other text, and throws there. *)
#[global] Instance imports : event_streams.Imports nat := {|
  event_streams.JSON_parse frame :=
    List.find (λ events, bool_decide (frameOf events = frame)) frames;
  event_streams.handleMemberRegisteredEvent _ n := (S n, true);
  event_streams.handleAssetDefinitionCreatedEvent _ n := (S n, true);
  event_streams.MEMBER_REGISTERED := "MemberRegistered(address,string)";
  event_streams.DESCRIBED_STRUCTURED_ASSET_DEFINITION_CREATED := "DescribedStructured";
  event_streams.DESCRIBED_UNSTRUCTURED_ASSET_DEFINITION_CREATED := "DescribedUnstructured";
  event_streams.STRUCTURED_ASSET_DEFINITION_CREATED := "Structured";
  event_streams.UNSTRUCTURED_ASSET_DEFINITION_CREATED := "Unstructured" |}.

Definition config1 : event_streams.Config :=
  {| event_streams.wsEndpoint := "ws://localhost:5000/ws";
     event_streams.topic := "topic1";
     event_streams.user := "user"; event_streams.password := "secret" |}.

Definition client0 : event_streams.Client (H:=nat) :=
  {| event_streams.disconnectionDetected := false; event_streams.sent := [];
     event_streams.reconnections := 0; event_streams.handlers := 0 |}.

(** The subscription the test creates first: no id, "generated for us". *)
Definition subscription1 : Subscription :=
  {| Subscription_ID := None; Subscription_Namespace := "ns1";
     Subscription_Name := "subscription1"; Subscription_Transport := "";
     Subscription_Filter := noFilter; Subscription_Options := noOptions;
     Subscription_Created := Some 1000%Z |}.

(** The update the test then attempts, under an id of its own. *)
Definition subscriptionUpdated : Subscription :=
  {| Subscription_ID := Some (sqlcommon.uuidOfN 77); Subscription_Namespace := "ns1";
     Subscription_Name := "subscription1"; Subscription_Transport := "websockets";
     Subscription_Filter :=
       {| SubscriptionFilter_Events := "DataArrivedBroadcast";
          SubscriptionFilter_Topic := "topic.*";
          SubscriptionFilter_Context := "context.*";
          SubscriptionFilter_Group := "group.*" |};
     Subscription_Options :=
       {| SubscriptionOptions_FirstEvent := Some "newest";
          SubscriptionOptions_BatchEnabled := Some true;
          SubscriptionOptions_BatchTimeout := Some 500000000%Z;
          SubscriptionOptions_BatchSize := Some 50%Z |};
     Subscription_Created := Some 2000%Z |}.

(** The table after the test's first upsert. *)
Definition tableWithSubscription1 : sqlcommon.Table :=
  (sqlcommon.UpsertSubscription subscription1 true sqlcommon.empty).2.

End scenario.

(** ** More vocabulary for the aggregator's traces *)

Module aggregator_order.
Import aggregator aggregator_spec.

(** The stage of [SequencedBroadcastBatch] a call belongs to. *)
Definition stage (c : Call) : nat :=
  match c with
  | CallRetrieveData _ _ => 0
  | CallUpsertBatch _ _ _ => 1
  | CallGetTransactionById _ _ _ => 2
  | CallUpsertTransaction _ _ _ => 3
  | CallUpsertData _ _ _ => 4
  | CallUpsertMessage _ _ _ => 5
  | CallInsertEvent _ _ => 6
  end.

(** [c1] may come before [c2] in one run of [persistBatch]: it is of an
    earlier stage, or both are data upserts, or both are message upserts. *)
Definition staged (c1 c2 : Call) : Prop :=
  stage c1 < stage c2 ∨ (stage c1 = stage c2 ∧ 4 ≤ stage c1).

Definition isRetrieveData (c : Call) : bool :=
  match c with CallRetrieveData _ _ => true | _ => false end.

Definition upsertedData (c : Call) : option Data :=
  match c with CallUpsertData d _ _ => Some d | _ => None end.

(** The fields of the world [persistBatch] has no business with. *)
Definition sameSurroundings {DB PS} (w w' : @World DB PS) : Prop :=
  publicstorage w' = publicstorage w
  ∧ ctxSleeps w' = ctxSleeps w
  ∧ clock w' = clock w.

Section WithTypes.
Context `{!FFTypes}.

(** A data entry whose hash is the hash of its value. *)
Definition hashMatchesValue (d : Data) : Prop :=
  ∃ hash, Value_Hash (Data_Value d) = inr hash ∧ Data_Hash d = Some hash.

(** The entries of the payload that are non-null and whose hash is the hash
    of their value, in payload order. *)
Definition validData (batch : Batch) : list Data :=
  omap (λ entry : option Data,
          d ← entry;
          match Value_Hash (Data_Value d) with
          | inr hash => if decide (Data_Hash d = Some hash) then Some d else None
          | inl _ => None
          end)
       (BatchPayload_Data (Batch_Payload batch)).

(** A call that upserts a data entry of the payload whose hash matches. *)
Definition dataEntryCall (batch : Batch) (c : Call) : Prop :=
  ∃ d e, c = CallUpsertData d false e
         ∧ Some d ∈ BatchPayload_Data (Batch_Payload batch)
         ∧ hashMatchesValue d.

(** A call that upserts a message entry of the payload that verifies,
    stamped. *)
Definition messageEntryCall (batch : Batch) (now : FFTime) (c : Call) : Prop :=
  ∃ m e, c = CallUpsertMessage (confirmedMessage batch now m) false e
         ∧ Some m ∈ BatchPayload_Messages (Batch_Payload batch)
         ∧ Message_Verify m = None.

(** A message entry as [persistBatchMessage] leaves it behind its pointer:
    stamped when it verifies, as it was otherwise. *)
Definition stampEntry (batch : Batch) (now : FFTime) (entry : option Message)
    : option Message :=
  msg ← entry;
  match Message_Verify msg with
  | None => Some (confirmedMessage batch now msg)
  | Some _ => Some msg
  end.

(** What a run of [persistBatch] can have made of a message entry: nothing,
    when it was not reached, or what [persistBatchMessage] makes of it. *)
Definition stampedEntry (batch : Batch) (now : FFTime)
    (entry entry' : option Message) : Prop :=
  entry' = entry ∨ entry' = stampEntry batch now entry.

(** What a run of [persistBatch] can have made of its batch: nothing, or
    the confirmation time set and some of the message entries stamped. *)
Definition stampedBatch (batch : Batch) (now : FFTime) (batch' : Batch) : Prop :=
  batch' = batch
  ∨ ∃ ms, batch' = Batch_setMessages ms (Batch_setConfirmed now batch)
          ∧ Forall2 (stampedEntry batch now)
              (BatchPayload_Messages (Batch_Payload batch)) ms.

(** The traces one run of [persistBatch] can leave, path by path: skipped
    on validation; stopped at the batch upsert; stopped at a transaction
    record of another subject; or gone on to the transaction upsert and,
    when that succeeds, to the data and then the message entries. *)
Inductive persistBatchTrace (batch : Batch) (author : string) (now : FFTime)
    (protocolTxId : string) (info : JSONObject) : list Call → Prop :=
  | pbt_skipped :
      persistBatchTrace batch author now protocolTxId info []
  | pbt_batch_refused e :
      persistBatchTrace batch author now protocolTxId info
        [CallUpsertBatch (Batch_setConfirmed now batch) false (Some e)]
  | pbt_other_subject id existing gerr :
      ¬ subjectMatches existing author batch →
      persistBatchTrace batch author now protocolTxId info
        [CallUpsertBatch (Batch_setConfirmed now batch) false None;
         CallGetTransactionById (Batch_Namespace batch) id (Some existing, gerr)]
  | pbt_transaction id found gerr tx e td tm :
      TransactionRef_ID (BatchPayload_TX (Batch_Payload batch)) = Some id →
      subjectMatches tx author batch →
      match found with
      | Some existing => tx = existing
      | None => tx = newTransaction (Batch_setConfirmed now batch) author
      end →
      Forall (dataEntryCall batch) td →
      Forall (messageEntryCall batch now) tm →
      length td ≤ length (BatchPayload_Data (Batch_Payload batch)) →
      length tm ≤ length (BatchPayload_Messages (Batch_Payload batch)) →
      (e ≠ None → td = [] ∧ tm = []) →
      persistBatchTrace batch author now protocolTxId info
        (CallUpsertBatch (Batch_setConfirmed now batch) false None
         :: CallGetTransactionById (Batch_Namespace batch) id (found, gerr)
         :: CallUpsertTransaction (Transaction_setUpdates now protocolTxId info tx)
              false e
         :: td ++ tm).

(** What each call of a run of [persistBatch] is: the batch with its
    confirmation time; the lookup; a transaction record of the batch's
    subject with the four updates; a data entry; a message entry. *)
Definition expectedCall (batch : Batch) (author : string) (now : FFTime)
    (protocolTxId : string) (info : JSONObject) (c : Call) : Prop :=
  (∃ e, c = CallUpsertBatch (Batch_setConfirmed now batch) false e)
  ∨ (∃ id res, c = CallGetTransactionById (Batch_Namespace batch) id res)
  ∨ (∃ tx e,
       c = CallUpsertTransaction (Transaction_setUpdates now protocolTxId info tx) false e
       ∧ subjectMatches tx author batch)
  ∨ dataEntryCall batch c
  ∨ messageEntryCall batch now c.

End WithTypes.
End aggregator_order.

(** ** The two closures of [SequencedBroadcastBatch] *)

Module aggregator_attempts.
Import aggregator.
Section Attempts.
Context {DB PS : Type} `{!Plugin DB} `{!PublicStorage PS} `{!FFTypes}.

(** The function literal of the first [a.retry.Do]: it assigns [body] and
    asks for a retry exactly when the retrieval failed. *)
Definition retrieveAttempt (payloadRef : string) (attempt : nat)
    (body : option (list byte))
    : @M DB PS (bool * option error * option (list byte)) :=
  res ← RetrieveData payloadRef;
  match res with
  | inl err => mret (true, Some err, None)
  | inr body => mret (false, None, Some body)
  end.

(** The function literal of the second [a.retry.Do]: one [persistBatch]
    under [RunAsGroup] on the batch behind the captured pointer, retried
    exactly when it returned an error. *)
Definition persistAttempt (author protocolTxId : string)
    (additionalInfo : JSONObject) (attempt : nat) (batchData : Batch)
    : @M DB PS (bool * option error * Batch) :=
  '(err, batchData) ← RunAsGroup
      (persistBatch_ptr batchData author protocolTxId additionalInfo);
  mret (bool_decide (err ≠ None), err, batchData).

End Attempts.
End aggregator_attempts.

(** ** More worked data *)

Module scenario_more.
Import aggregator scenario.

(** The batch of scenario 1 with a data entry that has no id: its hash is
    right, and the in-memory store refuses it with a failure. *)
Definition dataWithoutID : Data :=
  {| Data_ID := None; Data_Hash := Some (String.list_byte_of_string "v");
     Data_Value := "v" |}.

Definition batchWithoutDataID : Batch :=
  {| Batch_ID := Some B1; Batch_Namespace := "ns1"; Batch_Author := "A";
     Batch_Hash := Some ("001"%byte :: T1); Batch_Confirmed := None;
     Batch_Payload :=
       {| BatchPayload_TX :=
            {| TransactionRef_ID := Some T1;
               TransactionRef_Type := TransactionTypePin |};
          BatchPayload_Data := [Some dataWithoutID];
          BatchPayload_Messages := [Some message1] |} |}.


(** A world whose context is cancelled during the first sleep, over a
    content store that is down. *)
Definition worldCancelled : @World memdb.Store memdb.Storage :=
  withCtxSleeps 0
    (withPublicStorage
       {| memdb.contents := {[ "ref1" := body1 ]}; memdb.outages := 2 |} world0).

End scenario_more.

(** ** The rest of the WebSocket transport ([websockets.go]) *)

Module websockets_transport.

(** [websocketConnection], whose declaration is not among the sources: the
    transport only hands deliveries to its [dispatch]. *)
Class Connection (Conn Delivery : Type) := {
  dispatch : Delivery → Conn → option error * Conn }.

(** The two methods of [events.Callbacks] that [ack] and [connClosed] use. *)
Class ManagerCallbacks (CB Response : Type) := {
  DeliveryResponse : string → Response → CB → option error * CB;
  ConnnectionClosed : string → CB → CB }.

Section Transport.
Context {Conn Delivery CB Response : Type}
  `{!Connection Conn Delivery} `{!ManagerCallbacks CB Response}.

(** The [WebSockets] struct, as far as these methods read and write it: the
    connections by id, and the connection manager behind [callbacks].  The
    mutex is left out: the methods are run one at a time. *)
Record WebSockets := {
  connections : gmap string Conn;
  callbacks : CB }.

(** [Name] *)
Definition Name : string := "websockets".

(** [Init]: a fresh transport over the given callbacks. *)
Definition Init (cb : CB) : option error * WebSockets :=
  (None, {| connections := ∅; callbacks := cb |}).

(** [DeliveryRequest]: the connection is a pointer, so what [dispatch] does
    to it is seen under its id afterwards. *)
Definition DeliveryRequest (connID : string) (event : Delivery) (ws : WebSockets)
    : option error * WebSockets :=
  match connections ws !! connID with
  | None => (Some (MsgWSConnectionNotActive connID), ws)
  | Some conn =>
      let '(err, conn1) := dispatch event conn in
      (err, {| connections := <[connID := conn1]> (connections ws);
               callbacks := callbacks ws |})
  end.

(** [ack] *)
Definition ack (connID : string) (inflight : Response) (ws : WebSockets)
    : option error * WebSockets :=
  let '(err, cb) := DeliveryResponse connID inflight (callbacks ws) in
  (err, {| connections := connections ws; callbacks := cb |}).

(** [connClosed] *)
Definition connClosed (connID : string) (ws : WebSockets) : WebSockets :=
  {| connections := delete connID (connections ws);
     callbacks := ConnnectionClosed connID (callbacks ws) |}.

(** What reaches the transport once its connections are up: deliveries from
    the core, acks and closes from the connections. *)
Inductive Op :=
  | OpDeliveryRequest (connID : string) (event : Delivery)
  | OpAck (connID : string) (inflight : Response)
  | OpConnClosed (connID : string).

Definition step (op : Op) (ws : WebSockets) : WebSockets :=
  match op with
  | OpDeliveryRequest connID event => (DeliveryRequest connID event ws).2
  | OpAck connID inflight => (ack connID inflight ws).2
  | OpConnClosed connID => connClosed connID ws
  end.

Definition steps (ops : list Op) (ws : WebSockets) : WebSockets :=
  foldl (λ ws op, step op ws) ws ops.

End Transport.

(** A connection that keeps what it was handed and fails on the delivery
    [0]; a connection manager that counts the closes it is told of. *)
#[global] Instance queue : Connection (list nat) nat :=
  Build_Connection (list nat) nat
    (λ event conn,
       if decide (event = 0) then (Some (Failure "write failed"), conn)
       else (None, conn ++ [event])).

#[global] Instance closes : ManagerCallbacks (list string) nat :=
  Build_ManagerCallbacks (list string) nat
    (λ connID _ cb, (None, cb))
    (λ connID cb, cb ++ [connID]).

Definition twoConnections : WebSockets (Conn:=list nat) (CB:=list string) :=
  {| connections := {[ "conn1" := [] ; "conn2" := [7] ]}; callbacks := [] |}.

End websockets_transport.

(** ** The consumer client over a run of socket events *)

Module event_streams_run.
Import event_streams.

(** What the socket emits to the listeners of [addEventHandlers]. *)
Inductive SocketEvent :=
  | EvOpen
  | EvClose
  | EvMessage (message : string)
  | EvError (err : string).

Section Run.
Context {H : Type} `{!Imports H} (config : Config).

Definition emit (ev : SocketEvent) (c : Client) : Client :=
  match ev with
  | EvOpen => on_open (addEventHandlers config) c
  | EvClose => on_close (addEventHandlers config) c
  | EvMessage message => on_message (addEventHandlers config) message c
  | EvError err => on_error (addEventHandlers config) err c
  end.

(** The events are taken one after the other, each listener run to its end
    before the next event. *)
Definition emitAll (evs : list SocketEvent) (c : Client) : Client :=
  foldl (λ c ev, emit ev c) c evs.

(** A signature none of the [case]s of [handleMessage] names. *)
Definition unhandled (message : IEventStreamMessage) : Prop :=
  signature message ≠ MEMBER_REGISTERED
  ∧ signature message ≠ DESCRIBED_STRUCTURED_ASSET_DEFINITION_CREATED
  ∧ signature message ≠ DESCRIBED_UNSTRUCTURED_ASSET_DEFINITION_CREATED
  ∧ signature message ≠ STRUCTURED_ASSET_DEFINITION_CREATED
  ∧ signature message ≠ UNSTRUCTURED_ASSET_DEFINITION_CREATED.

Definition isOpenOrMessage (ev : SocketEvent) : bool :=
  match ev with EvOpen | EvMessage _ => true | _ => false end.

End Run.
End event_streams_run.

(** * Properties of the aggregator *)

Module aggregator_facts.
Import aggregator aggregator_spec aggregator_order.

(** ** Classified traces *)

Lemma Classified_app (t1 t2 : list Call) (r : option error) :
  Forall (λ c, verdict c = None) t1 → Classified r t2 → Classified r (t1 ++ t2).
Proof.
  induction 1 as [|c t1 Hc _ IH]; intros Ht2; simpl; [done|].
  rewrite Hc. by apply IH.
Qed.

Lemma Classified_ending (pre post : list Call) (c : Call) (r v : option error) :
  Classified r (pre ++ c :: post) → verdict c = Some v → post = [] ∧ r = v.
Proof.
  intros Hcl Hv. induction pre as [|p pre IH]; simpl in Hcl.
  - by rewrite Hv in Hcl.
  - destruct (verdict p) as [v'|]; [|by apply IH].
    destruct Hcl as [Hnil _]. by destruct pre.
Qed.

Lemma Classified_single (c : Call) :
  isUpsert c = true → Classified (returned (errorOf c)) [c].
Proof.
  intros Hup. simpl. unfold verdict, returned. rewrite Hup.
  destruct (errorOf c) as [e|]; [|done].
  destruct (decide (e = HashMismatch)); [|done].
  by destruct (isBatchLevelUpsert c).
Qed.

(** In a trace that is an upsert, a read, and then upserts only, the read
    is found where it is. *)
Lemma split_at_read (c1 c2 g : Call) (rest pre post : list Call) :
  c1 :: c2 :: rest = pre ++ g :: post →
  isUpsert c1 = true → Forall (λ c, isUpsert c = true) rest → isUpsert g = false →
  pre = [c1] ∧ c2 = g ∧ rest = post.
Proof.
  intros Heq H1 Hrest Hg. destruct pre as [|p1 [|p2 pre]]; simplify_eq/=.
  - congruence.
  - done.
  - rewrite Forall_app, Forall_cons in Hrest. destruct Hrest as (_ & Hg' & _). congruence.
Qed.

Section Facts.
Context {DB PS : Type} `{!Plugin DB} `{!PublicStorage PS} `{!FFTypes}.
Implicit Types (w : @World DB PS) (t : list Call) (r : option error).

(** ** The equations of the loop and of the entry functions *)

Lemma rangeUntilError_cons {A} (f : nat → A → M (option error)) i x rest w :
  rangeUntilError f i (x :: rest) w =
    let '(err, w1, t1) := f i x w in
    match err with
    | Some e => (Some e, w1, t1)
    | None =>
        let '(r, w2, t2) := rangeUntilError f (S i) rest w1 in
        (r, w2, t1 ++ t2)
    end.
Proof.
  simpl. unfold mbind, M_bind, mret, M_ret.
  destruct (f i x w) as [[[e|] w1] t1]; simpl.
  - by rewrite app_nil_r.
  - done.
Qed.

Lemma persistBatchData_eq batch i (data : option Data) w :
  persistBatchData batch i data w =
    match data with
    | Some d =>
        match Value_Hash (Data_Value d) with
        | inr hash =>
            if decide (Data_Hash d = Some hash) then
              let '(err, db) := upsertData d false (database w) in
              (returned err, withDatabase db w, [CallUpsertData d false err])
            else (None, w, [])
        | inl _ => (None, w, [])
        end
    | None => (None, w, [])
    end.
Proof.
  unfold persistBatchData, UpsertData, returned, mbind, M_bind, mret, M_ret.
  destruct data as [d|]; [|done].
  destruct (Value_Hash _) as [?|hash]; [done|].
  destruct (decide _); [|done].
  destruct (upsertData _ _ _) as [[err|] db]; [|done].
  by destruct (decide (err = HashMismatch)).
Qed.

Lemma persistBatchMessage_eq batch now i (msg : option Message) w :
  persistBatchMessage batch now i msg w =
    match msg with
    | Some m =>
        match Message_Verify m with
        | None =>
            let m' := confirmedMessage batch now m in
            let '(err, db) := upsertMessage m' false (database w) in
            (returned err, withDatabase db w, [CallUpsertMessage m' false err])
        | Some _ => (None, w, [])
        end
    | None => (None, w, [])
    end.
Proof.
  unfold persistBatchMessage, UpsertMessage, returned, confirmedMessage,
    mbind, M_bind, mret, M_ret.
  destruct msg as [m|]; [|done].
  destruct (Message_Verify m); [done|].
  destruct (upsertMessage _ _ _) as [[err|] db]; [|done].
  by destruct (decide (err = HashMismatch)).
Qed.

Lemma persistBatchWithTransaction_eq batch now protocolTxId info tx w :
  persistBatchWithTransaction batch now protocolTxId info tx w =
    let tx' := Transaction_setUpdates now protocolTxId info tx in
    let '(err, db) := upsertTransaction tx' false (database w) in
    let c := CallUpsertTransaction tx' false err in
    match err with
    | Some _ => (returned err, withDatabase db w, [c])
    | None =>
        let '(rd, wd, td) :=
          rangeUntilError (persistBatchData batch) 0
            (BatchPayload_Data (Batch_Payload batch)) (withDatabase db w) in
        match rd with
        | Some e => (Some e, wd, c :: td)
        | None =>
            let '(rm, wm, tm) :=
              rangeUntilError (persistBatchMessage batch now) 0
                (BatchPayload_Messages (Batch_Payload batch)) wd in
            (rm, wm, c :: td ++ tm)
        end
    end.
Proof.
  unfold persistBatchWithTransaction, UpsertTransaction, returned,
    mbind, M_bind, mret, M_ret. simpl.
  destruct (upsertTransaction _ _ _) as [[err|] db].
  { by destruct (decide (err = HashMismatch)). }
  destruct (rangeUntilError (persistBatchData batch) _ _ _) as [[[e|] wd] td]; simpl.
  { by rewrite app_nil_r. }
  destruct (rangeUntilError (persistBatchMessage batch now) _ _ _) as [[[e|] wm] tm];
    simpl; by rewrite app_nil_r.
Qed.

Lemma persistBatch_eq batch author protocolTxId info w :
  persistBatch batch author protocolTxId info w =
    match Batch_ID batch, TransactionRef_ID (BatchPayload_TX (Batch_Payload batch)) with
    | Some batchID, Some txID =>
        if decide (Batch_Hash batch = Some (BatchPayload_Hash (Batch_Payload batch)))
        then
          if decide (Batch_Author batch = author) then
            let batch' := Batch_setConfirmed (clock w) batch in
            let '(err, db) := upsertBatch batch' false (database w) in
            let c1 := CallUpsertBatch batch' false err in
            match err with
            | Some _ => (returned err, withDatabase db w, [c1])
            | None =>
                let '(res, db2) :=
                  getTransactionById (Batch_Namespace batch) txID db in
                let c2 := CallGetTransactionById (Batch_Namespace batch) txID res in
                let w2 := withDatabase db2 (withDatabase db w) in
                match res.1 with
                | None =>
                    let '(r, w3, t3) :=
                      persistBatchWithTransaction batch' (clock w) protocolTxId info
                        (newTransaction batch' author) w2 in
                    (r, w3, c1 :: c2 :: t3)
                | Some tx =>
                    if subjectMismatch tx author batch' batchID
                    then (None, w2, [c1; c2])
                    else
                      let '(r, w3, t3) :=
                        persistBatchWithTransaction batch' (clock w) protocolTxId info
                          tx w2 in
                      (r, w3, c1 :: c2 :: t3)
                end
            end
          else (None, w, [])
        else (None, w, [])
    | _, _ => (None, w, [])
    end.
Proof.
  unfold persistBatch, Now, UpsertBatch, GetTransactionById, returned,
    mbind, M_bind, mret, M_ret. simpl.
  destruct (Batch_ID batch) as [batchID|]; [|done].
  destruct (TransactionRef_ID _) as [txID|]; [|done].
  destruct (decide (Batch_Hash batch = _)); [|done].
  destruct (decide (Batch_Author batch = author)); [|done].
  destruct (upsertBatch _ _ _) as [[err|] db].
  { by destruct (decide (err = HashMismatch)). }
  simpl. destruct (getTransactionById _ _ _) as [[[tx|] gerr] db2]; simpl.
  - destruct (subjectMismatch _ _ _ _); [done|].
    by destruct (persistBatchWithTransaction _ _ _ _ _ _) as [[r w3] t3].
  - by destruct (persistBatchWithTransaction _ _ _ _ _ _) as [[r w3] t3].
Qed.

(** ** What the loop keeps *)

Lemma rangeUntilError_Forall {A} (P : Call → Prop)
    (f : nat → A → @M DB PS (option error)) :
  (∀ i x w, Forall P (trace (f i x w))) →
  ∀ xs i w, Forall P (trace (rangeUntilError f i xs w)).
Proof.
  intros Hf xs. induction xs as [|x xs IH]; intros i w.
  { by apply Forall_nil. }
  rewrite rangeUntilError_cons. specialize (Hf i x w).
  destruct (f i x w) as [[[e|] w1] t1]; [done|].
  specialize (IH (S i) w1).
  destruct (rangeUntilError f (S i) xs w1) as [[r w2] t2].
  by apply Forall_app.
Qed.

Lemma rangeUntilError_Classified {A} (f : nat → A → @M DB PS (option error)) :
  (∀ i, keepsClassification (f i)) →
  ∀ i, keepsClassification (rangeUntilError f i).
Proof.
  intros Hf i xs. revert i. induction xs as [|x xs IH]; intros i w.
  { split; [reflexivity|]. intros _. by apply Forall_nil. }
  rewrite rangeUntilError_cons. destruct (Hf i x w) as [Hcl Hgo].
  destruct (f i x w) as [[[e|] w1] t1]; [done|].
  destruct (IH (S i) w1) as [Hcl' Hgo'].
  destruct (rangeUntilError f (S i) xs w1) as [[r w2] t2].
  unfold result, trace in *; simpl in *. split.
  - apply Classified_app; auto.
  - intros ->. apply Forall_app; auto.
Qed.

Lemma verdict_entry_None (c : Call) :
  isUpsert c = true → isBatchLevelUpsert c = false →
  returned (errorOf c) = None → verdict c = None.
Proof.
  unfold verdict, returned. intros -> ->.
  destruct (errorOf c) as [e|]; [|done].
  by destruct (decide (e = HashMismatch)).
Qed.

Lemma persistBatchData_keeps batch i :
  keepsClassification (DB:=DB) (PS:=PS) (persistBatchData batch i).
Proof.
  intros data w. rewrite persistBatchData_eq.
  destruct data as [d|]; [|by split; [|intros; apply Forall_nil]].
  destruct (Value_Hash _) as [?|hash]; [by split; [|intros; apply Forall_nil]|].
  destruct (decide _); [|by split; [|intros; apply Forall_nil]].
  destruct (upsertData _ _ _) as [err db]. unfold result, trace; simpl. split.
  - by apply (Classified_single (CallUpsertData d false err)).
  - intros Hr. apply Forall_singleton. by apply verdict_entry_None.
Qed.

Lemma persistBatchMessage_keeps batch now i :
  keepsClassification (DB:=DB) (PS:=PS) (persistBatchMessage batch now i).
Proof.
  intros msg w. rewrite persistBatchMessage_eq.
  destruct msg as [m|]; [|by split; [|intros; apply Forall_nil]].
  destruct (Message_Verify m); [by split; [|intros; apply Forall_nil]|].
  cbv zeta. destruct (upsertMessage _ _ _) as [err db].
  unfold result, trace; simpl. split.
  - by apply (Classified_single (CallUpsertMessage (confirmedMessage batch now m) false err)).
  - intros Hr. apply Forall_singleton. by apply verdict_entry_None.
Qed.

(** ** What [persistBatch] as a whole keeps *)

Lemma persistBatchWithTransaction_Classified batch now protocolTxId info tx w :
  let run := persistBatchWithTransaction batch now protocolTxId info tx w in
  Classified (result run) (trace run).
Proof.
  cbv zeta. rewrite persistBatchWithTransaction_eq. cbv zeta.
  destruct (upsertTransaction _ _ _) as [[err|] db].
  { by apply (Classified_single (CallUpsertTransaction _ false (Some err))). }
  pose proof (rangeUntilError_Classified _ (persistBatchData_keeps batch) 0
                (BatchPayload_Data (Batch_Payload batch)) (withDatabase db w)) as [Hd Hd'].
  destruct (rangeUntilError (persistBatchData batch) _ _ _) as [[[e|] wd] td].
  { exact Hd. }
  pose proof (rangeUntilError_Classified _ (persistBatchMessage_keeps batch now) 0
                (BatchPayload_Messages (Batch_Payload batch)) wd) as [Hm _].
  destruct (rangeUntilError (persistBatchMessage batch now) _ _ _) as [[rm wm] tm].
  unfold result, trace in *; simpl in *.
  apply Classified_app; auto.
Qed.

Lemma persistBatch_Classified batch author protocolTxId info w :
  let run := persistBatch batch author protocolTxId info w in
  Classified (result run) (trace run).
Proof.
  cbv zeta. rewrite persistBatch_eq.
  destruct (Batch_ID batch) as [batchID|]; [|done].
  destruct (TransactionRef_ID _) as [txID|]; [|done].
  destruct (decide (Batch_Hash batch = _)); [|done].
  destruct (decide (Batch_Author batch = author)); [|done].
  cbv zeta. destruct (upsertBatch _ _ _) as [[err|] db].
  { by apply (Classified_single (CallUpsertBatch _ false (Some err))). }
  destruct (getTransactionById _ _ _) as [[[tx|] gerr] db2]; simpl.
  - destruct (subjectMismatch _ _ _ _); [done|].
    pose proof (persistBatchWithTransaction_Classified (Batch_setConfirmed (clock w) batch)
                  (clock w) protocolTxId info tx
                  (withDatabase db2 (withDatabase db w))) as Hcl.
    by destruct (persistBatchWithTransaction _ _ _ _ _ _) as [[r w3] t3].
  - pose proof (persistBatchWithTransaction_Classified (Batch_setConfirmed (clock w) batch)
                  (clock w) protocolTxId info
                  (newTransaction (Batch_setConfirmed (clock w) batch) author)
                  (withDatabase db2 (withDatabase db w))) as Hcl.
    by destruct (persistBatchWithTransaction _ _ _ _ _ _) as [[r w3] t3].
Qed.

Lemma persistBatchData_calls batch i data w :
  Forall (λ c, ∃ d e, c = CallUpsertData d false e) (trace (persistBatchData batch i data w)).
Proof.
  rewrite persistBatchData_eq.
  destruct data as [d|]; [|by apply Forall_nil].
  destruct (Value_Hash _) as [?|hash]; [by apply Forall_nil|].
  destruct (decide _); [|by apply Forall_nil].
  destruct (upsertData _ _ _) as [err db]. apply Forall_singleton. eauto.
Qed.

Lemma persistBatchMessage_calls batch now i msg w :
  Forall (λ c, ∃ m e, c = CallUpsertMessage m false e)
    (trace (persistBatchMessage batch now i msg w)).
Proof.
  rewrite persistBatchMessage_eq.
  destruct msg as [m|]; [|by apply Forall_nil].
  destruct (Message_Verify m); [by apply Forall_nil|].
  cbv zeta. destruct (upsertMessage _ _ _) as [err db]. apply Forall_singleton. eauto.
Qed.

Lemma persistBatchWithTransaction_calls batch now protocolTxId info tx w :
  Forall persistBatchCall
    (trace (persistBatchWithTransaction batch now protocolTxId info tx w)).
Proof.
  rewrite persistBatchWithTransaction_eq. cbv zeta.
  destruct (upsertTransaction _ _ _) as [[err|] db].
  { apply Forall_singleton. constructor. }
  pose proof (rangeUntilError_Forall _ _ (persistBatchData_calls batch) 
                (BatchPayload_Data (Batch_Payload batch)) 0 (withDatabase db w)) as Hd.
  destruct (rangeUntilError (persistBatchData batch) _ _ _) as [[[e|] wd] td].
  { apply Forall_cons; split; [constructor|].
    eapply Forall_impl; [exact Hd|]. intros c (d & e' & ->). constructor. }
  pose proof (rangeUntilError_Forall _ _ (persistBatchMessage_calls batch now)
                (BatchPayload_Messages (Batch_Payload batch)) 0 wd) as Hm.
  destruct (rangeUntilError (persistBatchMessage batch now) _ _ _) as [[rm wm] tm].
  apply Forall_cons; split; [constructor|]. apply Forall_app; split.
  - eapply Forall_impl; [exact Hd|]. intros c (d & e' & ->). constructor.
  - eapply Forall_impl; [exact Hm|]. intros c (m & e' & ->). constructor.
Qed.

Lemma persistBatch_calls batch author protocolTxId info w :
  Forall persistBatchCall (trace (persistBatch batch author protocolTxId info w)).
Proof.
  rewrite persistBatch_eq.
  destruct (Batch_ID batch) as [batchID|]; [|by apply Forall_nil].
  destruct (TransactionRef_ID _) as [txID|]; [|by apply Forall_nil].
  destruct (decide (Batch_Hash batch = _)); [|by apply Forall_nil].
  destruct (decide (Batch_Author batch = author)); [|by apply Forall_nil].
  cbv zeta. destruct (upsertBatch _ _ _) as [[err|] db].
  { apply Forall_singleton. constructor. }
  destruct (getTransactionById _ _ _) as [[[tx|] gerr] db2]; simpl.
  - destruct (subjectMismatch _ _ _ _).
    { repeat constructor. }
    pose proof (persistBatchWithTransaction_calls (Batch_setConfirmed (clock w) batch)
                  (clock w) protocolTxId info tx
                  (withDatabase db2 (withDatabase db w))) as Hc.
    destruct (persistBatchWithTransaction _ _ _ _ _ _) as [[r w3] t3].
    by repeat (apply Forall_cons; split; [constructor|]).
  - pose proof (persistBatchWithTransaction_calls (Batch_setConfirmed (clock w) batch)
                  (clock w) protocolTxId info
                  (newTransaction (Batch_setConfirmed (clock w) batch) author)
                  (withDatabase db2 (withDatabase db w))) as Hc.
    destruct (persistBatchWithTransaction _ _ _ _ _ _) as [[r w3] t3].
    by repeat (apply Forall_cons; split; [constructor|]).
Qed.

Lemma subjectMismatch_false tx author batch now batchID :
  Batch_ID batch = Some batchID →
  subjectMismatch tx author (Batch_setConfirmed now batch) batchID = false
  ↔ subjectMatches tx author batch.
Proof.
  intros Hid. unfold subjectMismatch, subjectMatches. simpl. rewrite Hid.
  rewrite !orb_false_iff, !bool_decide_eq_false.
  destruct (TransactionSubject_Batch (Transaction_Subject tx)) as [b|].
  - rewrite bool_decide_eq_false. split.
    + intros [[[Ht Ha] Hn] Hb]. repeat split.
      * by destruct (decide (TransactionSubject_Type (Transaction_Subject tx)
                             = TransactionTypePin)).
      * by destruct (decide (TransactionSubject_Author (Transaction_Subject tx) = author)).
      * by destruct (decide (TransactionSubject_Namespace (Transaction_Subject tx)
                             = Batch_Namespace batch)).
      * done.
      * f_equal. by destruct (decide (b = batchID)).
    + intros (Ht & Ha & Hn & _ & Hb). repeat split; try (by intros ?).
      intros Hne. congruence.
  - split; [by intros [_ ?]|]. by intros (_ & _ & _ & ? & _).
Qed.

Lemma omap_Forall_None {A B} (f : A → option B) (l : list A) :
  Forall (λ x, f x = None) l → omap f l = [].
Proof. induction 1 as [|x l Hx _ IH]; simpl; [done|]. by rewrite Hx. Qed.

Lemma persistBatchMessages_upserted batch now xs i w :
  let run := rangeUntilError (persistBatchMessage batch now) i xs w in
  result run = None →
  omap upsertedMessage (trace run) =
    omap (λ entry : option Message,
            msg ← entry;
            match Message_Verify msg with
            | None => Some (confirmedMessage batch now msg)
            | Some _ => None
            end) xs.
Proof.
  cbv zeta. revert i w. induction xs as [|entry xs IH]; intros i w; [done|].
  rewrite rangeUntilError_cons, persistBatchMessage_eq.
  destruct entry as [m|]; simpl.
  - destruct (Message_Verify m).
    + specialize (IH (S i) w).
      by destruct (rangeUntilError _ (S i) xs w) as [[r w2] t2].
    + cbv zeta. destruct (upsertMessage _ _ _) as [err db].
      destruct (returned err); [done|].
      specialize (IH (S i) (withDatabase db w)).
      destruct (rangeUntilError _ (S i) xs _) as [[r w2] t2].
      unfold result, trace in *; simpl in *. intros Hr. f_equal. by apply IH.
  - specialize (IH (S i) w).
    by destruct (rangeUntilError _ (S i) xs w) as [[r w2] t2].
Qed.

Lemma persistBatchWithTransaction_head batch now protocolTxId info tx w :
  ∃ res rest,
    trace (persistBatchWithTransaction batch now protocolTxId info tx w)
      = CallUpsertTransaction (Transaction_setUpdates now protocolTxId info tx)
          false res :: rest
    ∧ Forall (λ c, isUpsert c = true) rest.
Proof.
  rewrite persistBatchWithTransaction_eq. cbv zeta.
  destruct (upsertTransaction _ _ _) as [[err|] db].
  { eexists _, []. by split. }
  pose proof (rangeUntilError_Forall _ _ (persistBatchData_calls batch)
                (BatchPayload_Data (Batch_Payload batch)) 0 (withDatabase db w)) as Hd.
  destruct (rangeUntilError (persistBatchData batch) _ _ _) as [[[e|] wd] td].
  { eexists _, td. split; [done|].
    eapply Forall_impl; [exact Hd|]. by intros c (d & e' & ->). }
  pose proof (rangeUntilError_Forall _ _ (persistBatchMessage_calls batch now)
                (BatchPayload_Messages (Batch_Payload batch)) 0 wd) as Hm.
  destruct (rangeUntilError (persistBatchMessage batch now) _ _ _) as [[rm wm] tm].
  eexists _, (td ++ tm). split; [done|]. apply Forall_app; split.
  - eapply Forall_impl; [exact Hd|]. by intros c (d & e' & ->).
  - eapply Forall_impl; [exact Hm|]. by intros c (m & e' & ->).
Qed.

(** Once the transaction is written and nil comes back, the messages
    upserted are the verified entries, stamped, in payload order. *)
Lemma persistBatchWithTransaction_messages batch now protocolTxId info tx txu w :
  let run := persistBatchWithTransaction batch now protocolTxId info tx w in
  result run = None → CallUpsertTransaction txu false None ∈ trace run →
  omap upsertedMessage (trace run) = verifiedMessages batch now.
Proof.
  cbv zeta. rewrite persistBatchWithTransaction_eq. cbv zeta.
  destruct (upsertTransaction _ _ _) as [[err|] db].
  { unfold trace; simpl. intros _ Hin. by apply list_elem_of_singleton in Hin. }
  pose proof (rangeUntilError_Forall _ _ (persistBatchData_calls batch)
                (BatchPayload_Data (Batch_Payload batch)) 0 (withDatabase db w)) as Hd.
  destruct (rangeUntilError (persistBatchData batch) _ _ _) as [[[ed|] wd] td]; [done|].
  pose proof (persistBatchMessages_upserted batch now
                (BatchPayload_Messages (Batch_Payload batch)) 0 wd) as Hm.
  destruct (rangeUntilError (persistBatchMessage batch now) _ _ _) as [[rm wm] tm].
  unfold result, trace in *; simpl in *. intros Hr _.
  change (omap upsertedMessage (td ++ tm) = verifiedMessages batch now).
  rewrite omap_app, (Hm Hr), omap_Forall_None; [done|].
  eapply Forall_impl; [exact Hd|]. by intros c (d & e' & ->).
Qed.

(** ** The properties of [persistBatch] *)

(** C3: a batch whose id is null, whose payload transaction id is null,
    whose hash is null or is not the recomputed hash of its payload, or
    whose author is not the author the ledger supplied, is skipped:
    [persistBatch] returns nil, makes no call to the database (no upsert of
    batch, transaction, data or message, no event) and leaves the world as
    it found it. *)
Theorem persistBatch_skips_invalid_batch batch author protocolTxId info w :
  Batch_ID batch = None
  ∨ TransactionRef_ID (BatchPayload_TX (Batch_Payload batch)) = None
  ∨ Batch_Hash batch ≠ Some (BatchPayload_Hash (Batch_Payload batch))
  ∨ Batch_Author batch ≠ author →
  persistBatch batch author protocolTxId info w = (None, w, []).
Proof.
  intros Hbad. rewrite persistBatch_eq.
  destruct (Batch_ID batch) as [batchID|]; [|done].
  destruct (TransactionRef_ID _) as [txID|]; [|done].
  destruct (decide (Batch_Hash batch = _)); [|done].
  destruct (decide (Batch_Author batch = author)); [|done].
  by destruct Hbad as [?|[?|[?|?]]].
Qed.

(** ** Runs that no upsert ends *)

Lemma verdict_batch_level (c : Call) (e : error) :
  isBatchLevelUpsert c = true → errorOf c = Some e → verdict c ≠ None.
Proof.
  intros Hlevel Herr. unfold verdict. rewrite Herr, Hlevel.
  destruct c; try done; simpl; by destruct (decide (e = HashMismatch)).
Qed.

Lemma verdict_entry (c : Call) (err : option error) :
  isUpsert c = true → isBatchLevelUpsert c = false → errorOf c = err →
  verdict c = None → returned err = None ∧ (err = None ∨ err = Some HashMismatch).
Proof.
  intros Hup Hlevel <-. unfold verdict, returned. rewrite Hup, Hlevel.
  destruct (errorOf c) as [e|]; [|by split; [|left]].
  destruct (decide (e = HashMismatch)) as [->|]; [by split; [|right]|done].
Qed.

(** A data loop that no upsert ends has gone through every entry: it
    returns nil having made one upsert for each valid entry, in order, each
    answered with nil or with the sentinel. *)
Lemma dataLoop_complete batch (xs : list (option Data)) :
  ∀ i w,
    let run := rangeUntilError (persistBatchData batch) i xs w in
    Forall (λ c, verdict c = None) (trace run) →
    result run = None
    ∧ Forall2 (λ c d, ∃ e, c = CallUpsertData d false e
                           ∧ (e = None ∨ e = Some HashMismatch))
        (trace run)
        (omap (λ entry : option Data,
                 d ← entry;
                 match Value_Hash (Data_Value d) with
                 | inr hash => if decide (Data_Hash d = Some hash) then Some d else None
                 | inl _ => None
                 end) xs).
Proof.
  cbv zeta. induction xs as [|entry xs IH]; intros i w.
  { intros _. split; [done|constructor]. }
  rewrite rangeUntilError_cons, persistBatchData_eq.
  assert (∀ w',
    Forall (λ c, verdict c = None)
      (trace (let '(r, w2, t2) := rangeUntilError (persistBatchData batch) (S i) xs w'
              in (r, w2, [] ++ t2))) →
    result (let '(r, w2, t2) := rangeUntilError (persistBatchData batch) (S i) xs w'
            in (r, w2, [] ++ t2)) = None
    ∧ Forall2 (λ c d, ∃ e, c = CallUpsertData d false e
                           ∧ (e = None ∨ e = Some HashMismatch))
        (trace (let '(r, w2, t2) := rangeUntilError (persistBatchData batch) (S i) xs w'
                in (r, w2, [] ++ t2)))
        (omap (λ entry : option Data,
                 d ← entry;
                 match Value_Hash (Data_Value d) with
                 | inr hash => if decide (Data_Hash d = Some hash) then Some d else None
                 | inl _ => None
                 end) xs)) as Hskip.
  { intros w'. specialize (IH (S i) w').
    by destruct (rangeUntilError _ (S i) xs w') as [[r w2] t2]. }
  destruct entry as [d|]; simpl; [|apply Hskip].
  destruct (Value_Hash (Data_Value d)) as [?|hash]; [apply Hskip|].
  destruct (decide (Data_Hash d = Some hash)); [|apply Hskip].
  destruct (upsertData _ _ _) as [err db].
  destruct (returned err) as [e'|] eqn:Hret.
  - unfold trace; simpl. intros Hall. rewrite Forall_singleton in Hall. exfalso.
    apply (verdict_entry (CallUpsertData d false err) err) in Hall as [Hnone _]; try done.
    congruence.
  - specialize (IH (S i) (withDatabase db w)).
    destruct (rangeUntilError _ (S i) xs _) as [[r w2] t2].
    unfold result, trace in *; simpl in *. intros Hall.
    rewrite Forall_cons in Hall. destruct Hall as [Hc Hall]. destruct (IH Hall) as [Hr Ht2].
    split; [done|]. constructor; [|done]. exists err. split; [done|].
    by apply (verdict_entry (CallUpsertData d false err) err) in Hc as [_ ?].
Qed.

(** The same of a message loop. *)
Lemma messageLoop_complete batch now (xs : list (option Message)) :
  ∀ i w,
    let run := rangeUntilError (persistBatchMessage batch now) i xs w in
    Forall (λ c, verdict c = None) (trace run) →
    result run = None
    ∧ Forall2 (λ c m, ∃ e, c = CallUpsertMessage m false e
                           ∧ (e = None ∨ e = Some HashMismatch))
        (trace run)
        (omap (λ entry : option Message,
                 msg ← entry;
                 match Message_Verify msg with
                 | None => Some (confirmedMessage batch now msg)
                 | Some _ => None
                 end) xs).
Proof.
  cbv zeta. induction xs as [|entry xs IH]; intros i w.
  { intros _. split; [done|constructor]. }
  rewrite rangeUntilError_cons, persistBatchMessage_eq.
  assert (∀ w',
    Forall (λ c, verdict c = None)
      (trace (let '(r, w2, t2) :=
                rangeUntilError (persistBatchMessage batch now) (S i) xs w'
              in (r, w2, [] ++ t2))) →
    result (let '(r, w2, t2) :=
              rangeUntilError (persistBatchMessage batch now) (S i) xs w'
            in (r, w2, [] ++ t2)) = None
    ∧ Forall2 (λ c m, ∃ e, c = CallUpsertMessage m false e
                           ∧ (e = None ∨ e = Some HashMismatch))
        (trace (let '(r, w2, t2) :=
                  rangeUntilError (persistBatchMessage batch now) (S i) xs w'
                in (r, w2, [] ++ t2)))
        (omap (λ entry : option Message,
                 msg ← entry;
                 match Message_Verify msg with
                 | None => Some (confirmedMessage batch now msg)
                 | Some _ => None
                 end) xs)) as Hskip.
  { intros w'. specialize (IH (S i) w').
    by destruct (rangeUntilError _ (S i) xs w') as [[r w2] t2]. }
  destruct entry as [m|]; simpl; [|apply Hskip].
  destruct (Message_Verify m); [apply Hskip|].
  cbv zeta. destruct (upsertMessage _ _ _) as [err db].
  destruct (returned err) as [e'|] eqn:Hret.
  - unfold trace; simpl. intros Hall. rewrite Forall_singleton in Hall. exfalso.
    apply (verdict_entry (CallUpsertMessage (confirmedMessage batch now m) false err) err)
      in Hall as [Hnone _]; try done.
    congruence.
  - specialize (IH (S i) (withDatabase db w)).
    destruct (rangeUntilError _ (S i) xs _) as [[r w2] t2].
    unfold result, trace in *; simpl in *. intros Hall.
    rewrite Forall_cons in Hall. destruct Hall as [Hc Hall]. destruct (IH Hall) as [Hr Ht2].
    split; [done|]. constructor; [|done]. exists err. split; [done|].
    by apply (verdict_entry (CallUpsertMessage (confirmedMessage batch now m) false err)
                err) in Hc as [_ ?].
Qed.

(** From the transaction upsert on: a run that no upsert ends returns nil
    after the transaction upsert, one upsert per valid data entry and one
    per verified message. *)
Lemma persistBatchWithTransaction_complete batch now protocolTxId info tx w :
  let run := persistBatchWithTransaction batch now protocolTxId info tx w in
  Forall (λ c, verdict c = None) (trace run) →
  result run = None
  ∧ ∃ td tm,
      trace run
        = CallUpsertTransaction (Transaction_setUpdates now protocolTxId info tx)
            false None :: td ++ tm
      ∧ Forall2 (λ c d, ∃ e, c = CallUpsertData d false e
                             ∧ (e = None ∨ e = Some HashMismatch))
          td (validData batch)
      ∧ Forall2 (λ c m, ∃ e, c = CallUpsertMessage m false e
                             ∧ (e = None ∨ e = Some HashMismatch))
          tm (verifiedMessages batch now).
Proof.
  cbv zeta. rewrite persistBatchWithTransaction_eq. cbv zeta.
  destruct (upsertTransaction _ _ _) as [[err|] db].
  { unfold trace; simpl. intros Hall. rewrite Forall_singleton in Hall. exfalso.
    by apply (verdict_batch_level _ err) in Hall. }
  pose proof (dataLoop_complete batch (BatchPayload_Data (Batch_Payload batch)) 0
                (withDatabase db w)) as Hd.
  destruct (rangeUntilError (persistBatchData batch) _ _ _) as [[rd wd] td].
  destruct rd as [e|].
  { unfold result, trace in *; simpl in *. intros Hall.
    rewrite Forall_cons in Hall. destruct Hall as [_ Hall]. by destruct (Hd Hall). }
  pose proof (messageLoop_complete batch now
                (BatchPayload_Messages (Batch_Payload batch)) 0 wd) as Hm.
  destruct (rangeUntilError (persistBatchMessage batch now) _ _ _) as [[rm wm] tm].
  unfold result, trace in *; simpl in *. intros Hall.
  rewrite Forall_cons, Forall_app in Hall. destruct Hall as (_ & Hdall & Hmall).
  destruct (Hd Hdall) as [_ Hd2]. destruct (Hm Hmall) as [-> Hm2].
  split; [done|]. by exists td, tm.
Qed.

(** C4: every upsert [persistBatch] makes (batch, transaction, each data
    entry, each message entry) passes [allowHashUpdate=false].  An upsert
    that fails with anything but the sentinel is the last call made and its
    error is what [persistBatch] returns; [HashMismatch] on the batch or
    the transaction upsert is the last call made and nil is returned.  No
    other result of an upsert ends the run: when every upsert answered nil
    or, on a data or message entry, [HashMismatch], a batch that passed
    validation and whose transaction record, where one was found, carries
    its subject is persisted to its end.  Nil is returned after the batch
    upsert, the lookup, the transaction upsert, one upsert for each valid
    data entry and then one for each verified message, in payload order,
    the entries whose upsert answered [HashMismatch] among them: such an
    entry is skipped and the entries after it are still gone through. *)
Theorem persistBatch_upsert_errors_classified batch author protocolTxId info w :
  let run := persistBatch batch author protocolTxId info w in
  (∀ c, c ∈ trace run → isUpsert c = true → allowHashUpdateOf c = Some false)
  ∧ (∀ pre c post e,
       trace run = pre ++ c :: post → isUpsert c = true → errorOf c = Some e →
       (e ≠ HashMismatch → post = [] ∧ result run = Some e)
       ∧ (e = HashMismatch → isBatchLevelUpsert c = true →
          post = [] ∧ result run = None))
  ∧ (Batch_ID batch ≠ None →
     TransactionRef_ID (BatchPayload_TX (Batch_Payload batch)) ≠ None →
     Batch_Hash batch = Some (BatchPayload_Hash (Batch_Payload batch)) →
     Batch_Author batch = author →
     Forall (λ c, verdict c = None) (trace run) →
     (∀ ns id existing gerr,
        CallGetTransactionById ns id (Some existing, gerr) ∈ trace run →
        subjectMatches existing author batch) →
     result run = None
     ∧ ∃ id found gerr tx td tm,
         trace run
           = CallUpsertBatch (Batch_setConfirmed (clock w) batch) false None
             :: CallGetTransactionById (Batch_Namespace batch) id (found, gerr)
             :: CallUpsertTransaction tx false None
             :: td ++ tm
         ∧ Forall2 (λ c d, ∃ e, c = CallUpsertData d false e
                                ∧ (e = None ∨ e = Some HashMismatch))
             td (validData batch)
         ∧ Forall2 (λ c m, ∃ e, c = CallUpsertMessage m false e
                                ∧ (e = None ∨ e = Some HashMismatch))
             tm (verifiedMessages batch (clock w))).
Proof.
  cbv zeta. split; [|split].
  - intros c Hc Hup.
    pose proof (persistBatch_calls batch author protocolTxId info w) as Hall.
    rewrite Forall_forall in Hall. by destruct (Hall c Hc).
  - intros pre c post e Htrace Hup Herr.
    pose proof (persistBatch_Classified batch author protocolTxId info w) as Hcl.
    cbv zeta in Hcl. rewrite Htrace in Hcl. split.
    + intros Hne. apply (Classified_ending _ _ _ _ _ Hcl).
      unfold verdict. rewrite Hup, Herr. by destruct (decide (e = HashMismatch)).
    + intros -> Hlevel. apply (Classified_ending _ _ _ _ _ Hcl).
      unfold verdict. by rewrite Hup, Herr, Hlevel.
  - intros Hid Htx Hhash Hauthor. rewrite persistBatch_eq.
    destruct (Batch_ID batch) as [batchID|] eqn:Hbid; [|done].
    destruct (TransactionRef_ID _) as [txID|]; [|done].
    destruct (decide (Batch_Hash batch = _)); [|done].
    destruct (decide (Batch_Author batch = author)); [|done].
    cbv zeta. destruct (upsertBatch _ _ _) as [[err|] db].
    { unfold trace; simpl. intros Hall. rewrite Forall_singleton in Hall. exfalso.
      by apply (verdict_batch_level _ err) in Hall. }
    destruct (getTransactionById _ _ _) as [[found gerr] db2]. simpl.
    set (w2 := withDatabase db2 (withDatabase db w)).
    set (batch' := Batch_setConfirmed (clock w) batch).
    assert (∀ tx,
      let c1 := CallUpsertBatch batch' false None in
      let c2 := CallGetTransactionById (Batch_Namespace batch) txID (found, gerr) in
      let run := let '(r, w3, t3) :=
                   persistBatchWithTransaction batch' (clock w) protocolTxId info tx w2
                 in (r, w3, c1 :: c2 :: t3) in
      Forall (λ c, verdict c = None) (trace run) →
      result run = None
      ∧ ∃ id found0 gerr0 tx0 td tm,
          trace run
            = c1 :: CallGetTransactionById (Batch_Namespace batch) id (found0, gerr0)
              :: CallUpsertTransaction tx0 false None :: td ++ tm
          ∧ Forall2 (λ c d, ∃ e, c = CallUpsertData d false e
                                 ∧ (e = None ∨ e = Some HashMismatch))
              td (validData batch)
          ∧ Forall2 (λ c m, ∃ e, c = CallUpsertMessage m false e
                                 ∧ (e = None ∨ e = Some HashMismatch))
              tm (verifiedMessages batch (clock w))) as Hgo.
    { intros tx. cbv zeta.
      pose proof (persistBatchWithTransaction_complete batch' (clock w) protocolTxId
                    info tx w2) as Hrun.
      cbv zeta in Hrun.
      destruct (persistBatchWithTransaction _ _ _ _ _ _) as [[r w3] t3].
      unfold result, trace in *; simpl in *. intros Hall.
      rewrite !Forall_cons in Hall. destruct Hall as (_ & _ & Hall).
      destruct (Hrun Hall) as (-> & td & tm & -> & Hd & Hm).
      split; [done|]. by eexists txID, found, gerr, _, td, tm. }
    destruct found as [tx|].
    + destruct (subjectMismatch tx author batch' batchID) eqn:Hmm.
      * unfold trace; simpl. intros _ Hsubj. exfalso.
        assert (subjectMatches tx author batch) as Hm.
        { apply (Hsubj (Batch_Namespace batch) txID tx gerr).
          apply list_elem_of_further, list_elem_of_here. }
        apply (subjectMismatch_false tx author batch (clock w) batchID Hbid) in Hm.
        subst batch'. congruence.
      * intros Hall _. by apply Hgo.
    + intros Hall _. by apply Hgo.
Qed.

(** C5: when the lookup of the transaction record of the batch finds none,
    the record [persistBatch] goes on to upsert has the id of the payload's
    transaction, the subject [{pin, author, batch.namespace, batch.id}] with
    [author] the ledger-supplied one, and the hash of that subject; when the
    lookup finds a record, [persistBatch] stops there and returns nil unless
    the record's subject has type pin, that author, the batch's namespace
    and a non-null batch pointer equal to [batch.id], in which case it is
    the found record that is upserted. *)
Theorem persistBatch_transaction_record batch author protocolTxId info w :
  let run := persistBatch batch author protocolTxId info w in
  ∀ pre ns id found gerr post,
    trace run = pre ++ CallGetTransactionById ns id (found, gerr) :: post →
    match found with
    | None =>
        ∃ tx res rest,
          post = CallUpsertTransaction tx false res :: rest
          ∧ Transaction_ID tx = TransactionRef_ID (BatchPayload_TX (Batch_Payload batch))
          ∧ Transaction_Subject tx =
              {| TransactionSubject_Type := TransactionTypePin;
                 TransactionSubject_Author := author;
                 TransactionSubject_Namespace := Batch_Namespace batch;
                 TransactionSubject_Batch := Batch_ID batch |}
          ∧ Transaction_Hash tx
              = Some (TransactionSubject_Hash (Transaction_Subject tx))
    | Some existing =>
        (¬ subjectMatches existing author batch → post = [] ∧ result run = None)
        ∧ (subjectMatches existing author batch →
           ∃ res rest,
             post = CallUpsertTransaction
                      (Transaction_setUpdates (clock w) protocolTxId info existing)
                      false res :: rest)
    end.
Proof.
  cbv zeta. intros pre ns id found gerr post.
  rewrite persistBatch_eq.
  destruct (Batch_ID batch) as [batchID|] eqn:Hid; [|by destruct pre].
  destruct (TransactionRef_ID _) as [txID|] eqn:Htx; [|by destruct pre].
  destruct (decide (Batch_Hash batch = _)); [|by destruct pre].
  destruct (decide (Batch_Author batch = author)); [|by destruct pre].
  cbv zeta. destruct (upsertBatch _ _ _) as [[err|] db].
  { unfold trace; simpl. by destruct pre as [|? [|? ?]]. }
  destruct (getTransactionById _ _ _) as [[tx gerr'] db2]. simpl.
  set (w2 := withDatabase db2 (withDatabase db w)).
  set (batch' := Batch_setConfirmed (clock w) batch).
  destruct tx as [tx|].
  - destruct (subjectMismatch tx author batch' batchID) eqn:Hmm.
    + unfold trace, result; simpl. intros Heq.
      apply split_at_read in Heq as (_ & [= _ _ <- _] & <-); [|done..].
      split; [done|]. intros Hm.
      apply (subjectMismatch_false tx author batch (clock w) batchID Hid) in Hm.
      subst batch'. congruence.
    + destruct (persistBatchWithTransaction_head batch' (clock w) protocolTxId info tx w2)
        as (res & rest & Ht3 & Hrest).
      destruct (persistBatchWithTransaction _ _ _ _ _ _) as [[r w3] t3].
      unfold trace, result in *; simpl in *. subst t3. intros Heq.
      apply split_at_read in Heq as (_ & [= _ _ <- _] & <-); [|done|by constructor|done].
      split; [|by eauto]. intros Hno. exfalso. apply Hno.
      by apply (subjectMismatch_false tx author batch (clock w) batchID Hid).
  - destruct (persistBatchWithTransaction_head batch' (clock w) protocolTxId info
                (newTransaction batch' author) w2) as (res & rest & Ht3 & Hrest).
    destruct (persistBatchWithTransaction _ _ _ _ _ _) as [[r w3] t3].
    unfold trace, result in *; simpl in *. subst t3. intros Heq.
    apply split_at_read in Heq as (_ & [= _ _ <- _] & <-); [|done|by constructor|done].
    eexists _, res, rest. split; [reflexivity|]. simpl. by rewrite Htx, Hid.
Qed.

(** C1, as the code has it: [persistBatch] never calls the event insert;
    every message upsert it makes passes [allowHashUpdate=false]; and what
    it does for the messages of a batch it accepts (the transaction upsert
    succeeded and nil is returned) is to upsert every entry that is
    non-null and verifies, stamped with [confirmed = now] and
    [batchID = batch.id], in payload order, and nothing else as a message. *)
Theorem persistBatch_upserts_messages_inserts_no_event
    batch author protocolTxId info w :
  let run := persistBatch batch author protocolTxId info w in
  Forall (λ c, isInsertEvent c = false) (trace run)
  ∧ Forall (λ c, ∀ m flag res, c = CallUpsertMessage m flag res → flag = false)
      (trace run)
  ∧ (∀ tx, result run = None → CallUpsertTransaction tx false None ∈ trace run →
       omap upsertedMessage (trace run) = verifiedMessages batch (clock w)).
Proof.
  cbv zeta. split.
  { eapply Forall_impl; [apply persistBatch_calls|]. by intros c []. }
  split.
  { eapply Forall_impl; [apply persistBatch_calls|].
    intros c Hc m flag res ->. by inversion Hc. }
  intros txu. rewrite persistBatch_eq.
  destruct (Batch_ID batch) as [batchID|]; [|by intros _ ?%elem_of_nil].
  destruct (TransactionRef_ID _) as [txID|]; [|by intros _ ?%elem_of_nil].
  destruct (decide (Batch_Hash batch = _)); [|by intros _ ?%elem_of_nil].
  destruct (decide (Batch_Author batch = author)); [|by intros _ ?%elem_of_nil].
  cbv zeta. destruct (upsertBatch _ _ _) as [[err|] db].
  { unfold trace; simpl. intros _ Hin. by apply list_elem_of_singleton in Hin. }
  destruct (getTransactionById _ _ _) as [[found gerr] db2]. simpl.
  set (w2 := withDatabase db2 (withDatabase db w)).
  set (batch' := Batch_setConfirmed (clock w) batch).
  assert (∀ tx,
    let run := persistBatchWithTransaction batch' (clock w) protocolTxId info tx w2 in
    let c1 := CallUpsertBatch batch' false None in
    let c2 := CallGetTransactionById (Batch_Namespace batch) txID (found, gerr) in
    result (let '(r, w3, t3) := run in (r, w3, c1 :: c2 :: t3)) = None →
    CallUpsertTransaction txu false None
      ∈ trace (let '(r, w3, t3) := run in (r, w3, c1 :: c2 :: t3)) →
    omap upsertedMessage (trace (let '(r, w3, t3) := run in (r, w3, c1 :: c2 :: t3)))
      = verifiedMessages batch (clock w)) as Hframe.
  { intros tx.
    pose proof (persistBatchWithTransaction_messages batch' (clock w) protocolTxId
                  info tx txu w2) as Hrun.
    cbv zeta in *. destruct (persistBatchWithTransaction _ _ _ _ _ _) as [[r w3] t3].
    unfold result, trace in *; simpl in *.
    intros Hr Hin. apply Hrun; [done|].
    apply elem_of_cons in Hin as [?|Hin]; [done|].
    by apply elem_of_cons in Hin as [?|Hin]. }
  destruct found as [tx|].
  - destruct (subjectMismatch tx author batch' batchID).
    + unfold trace; simpl. intros _ Hin.
      apply elem_of_cons in Hin as [?|Hin]; [done|].
      by apply list_elem_of_singleton in Hin.
    + apply Hframe.
  - apply Hframe.
Qed.

End Facts.

(** ** The scenarios, run *)

Import scenario.

(** Scenario 1: the batch, its transaction, its data entry and its message
    are written, in that order; the event table stays empty. *)
Lemma happy_path :
  let run := persistBatch batch1 "A" "0x1" ∅ world0 in
  result run = None
  ∧ trace run = happyTrace
  ∧ memdb.messages (database (world run)) !! M1 = Some confirmedMessage1
  ∧ memdb.events (database (world run)) = [].
Proof. vm_compute. by repeat split. Qed.

(** C3 at the design document's scenario 3: author ["A"] in the batch,
    ["B"] from the ledger. *)
Lemma persistBatch_skips_invalid_batch_witness :
  persistBatch batch1 "B" "0x1" ∅ world0 = (None, world0, []).
Proof.
  apply persistBatch_skips_invalid_batch.
  right; right; right. discriminate.
Defined.

(** C4 at a store holding the batch under another hash (the batch is
    skipped, nil), and at a store holding the data entry and the message of
    the batch under other hashes: both upserts answer the sentinel, the
    message is reached after the data entry was skipped, and nil is
    returned. *)
Lemma persistBatch_upsert_errors_classified_witness :
  result (persistBatch batch1 "A" "0x1" ∅ worldStaleBatch) = None
  ∧ allowHashUpdateOf (CallUpsertBatch confirmedBatch1 false (Some HashMismatch))
      = Some false
  ∧ result (persistBatch batch1 "A" "0x1" ∅ worldStaleEntries) = None
  ∧ ∃ id found gerr tx td tm,
      trace (persistBatch batch1 "A" "0x1" ∅ worldStaleEntries)
        = CallUpsertBatch (Batch_setConfirmed 1000 batch1) false None
          :: CallGetTransactionById "ns1" id (found, gerr)
          :: CallUpsertTransaction tx false None
          :: td ++ tm
      ∧ Forall2 (λ c d, ∃ e, c = CallUpsertData d false e
                             ∧ (e = None ∨ e = Some HashMismatch))
          td [data1]
      ∧ Forall2 (λ c m, ∃ e, c = CallUpsertMessage m false e
                             ∧ (e = None ∨ e = Some HashMismatch))
          tm [confirmedMessage1].
Proof.
  pose proof (persistBatch_upsert_errors_classified batch1 "A" "0x1" ∅ worldStaleBatch)
    as (Hflag & Hcl & _).
  pose proof (persistBatch_upsert_errors_classified batch1 "A" "0x1" ∅ worldStaleEntries)
    as (_ & _ & Hon).
  assert (trace (persistBatch batch1 "A" "0x1" ∅ worldStaleEntries)
          = [ CallUpsertBatch confirmedBatch1 false None;
              CallGetTransactionById "ns1" T1 (None, None);
              CallUpsertTransaction transaction1 false None;
              CallUpsertData data1 false (Some HashMismatch);
              CallUpsertMessage confirmedMessage1 false (Some HashMismatch) ]) as Hstale.
  { vm_compute. reflexivity. }
  split; [|split].
  - destruct (Hcl [] (CallUpsertBatch confirmedBatch1 false (Some HashMismatch)) []
                HashMismatch) as [_ Hsentinel];
      [vm_compute; reflexivity|reflexivity|reflexivity|].
    by destruct Hsentinel as [_ ?].
  - apply Hflag; [|reflexivity].
    apply (bool_decide_unpack _). vm_compute. exact I.
  - apply Hon.
    + discriminate.
    + discriminate.
    + reflexivity.
    + reflexivity.
    + rewrite Hstale. repeat constructor.
    + intros ns id existing gerr Hin. rewrite Hstale in Hin.
      repeat (apply elem_of_cons in Hin as [Hin|Hin]; [discriminate Hin|]).
      by apply elem_of_nil in Hin.
Defined.

(** C5 on the empty store (no record: one is built) and on a store whose
    record for [T1] pins another batch (the batch is skipped). *)
Lemma persistBatch_transaction_record_witness :
  (∃ tx res rest,
     drop 2 happyTrace = CallUpsertTransaction tx false res :: rest
     ∧ Transaction_ID tx = Some T1
     ∧ Transaction_Subject tx =
         {| TransactionSubject_Type := TransactionTypePin;
            TransactionSubject_Author := "A";
            TransactionSubject_Namespace := "ns1";
            TransactionSubject_Batch := Some B1 |}
     ∧ Transaction_Hash tx = Some (TransactionSubject_Hash (Transaction_Subject tx)))
  ∧ result (persistBatch batch1 "A" "0x1" ∅ worldForeignTransaction) = None.
Proof.
  split.
  - apply (persistBatch_transaction_record batch1 "A" "0x1" ∅ world0
             [CallUpsertBatch confirmedBatch1 false None] "ns1" T1 None None
             (drop 2 happyTrace)).
    vm_compute. reflexivity.
  - destruct (persistBatch_transaction_record batch1 "A" "0x1" ∅ worldForeignTransaction
                [CallUpsertBatch confirmedBatch1 false None] "ns1" T1
                (Some foreignTransaction1) None []) as [Hskip _].
    { vm_compute. reflexivity. }
    apply Hskip. intros (_ & _ & _ & _ & Hbatch). discriminate Hbatch.
Defined.

(** C1, as the code has it, on the happy path: the message upserted is the
    payload's, stamped. *)
Lemma persistBatch_upserts_messages_inserts_no_event_witness :
  omap upsertedMessage (trace (persistBatch batch1 "A" "0x1" ∅ world0))
    = [confirmedMessage1].
Proof.
  refine (proj2 (proj2 (persistBatch_upserts_messages_inserts_no_event
                          batch1 "A" "0x1" ∅ world0))
            transaction1 _ _).
  - vm_compute. reflexivity.
  - apply (bool_decide_unpack _). vm_compute. exact I.
Defined.

(** C1 as stated fails on the happy path: the batch is accepted, its message
    [M1] is accepted (verified, upserted without error and stored), nil is
    returned, and no event for [M1] has been handed to the store or is in
    its event table. *)
Lemma persistBatch_accepted_message_without_event :
  let run := persistBatch batch1 "A" "0x1" ∅ world0 in
  result run = None
  ∧ CallUpsertMessage confirmedMessage1 false None ∈ trace run
  ∧ ¬ eventInserted "ns1" message1 (trace run)
  ∧ ¬ (∃ ev, ev ∈ memdb.events (database (world run)) ∧ confirmsMessage "ns1" message1 ev).
Proof.
  cbv zeta. destruct happy_path as (Hr & Ht & _ & Hev).
  rewrite Hr, Ht, Hev. split; [done|]. split; [|split].
  - apply (bool_decide_unpack _). vm_compute. exact I.
  - intros (ev & res & Hin & _). unfold happyTrace in Hin.
    repeat (apply elem_of_cons in Hin as [Hin|Hin]; [discriminate Hin|]).
    by apply elem_of_nil in Hin.
  - intros (ev & Hin & _). by apply elem_of_nil in Hin.
Qed.

(** C2: [persistBatch] does swallow a failed read.  On a store whose
    [GetTransactionById] answers [(nil, "pop")] the error is dropped, the
    record is taken to be absent, a fresh one is written along with the
    data and the message, and nil is returned where the property asks for
    an error. *)
Theorem persistBatch_swallows_failed_read :
  let run := persistBatch batch1 "A" "0x1" ∅ worldFailingReads in
  trace run =
    [ CallUpsertBatch confirmedBatch1 false None;
      CallGetTransactionById "ns1" T1 (None, Some (Failure "pop"));
      CallUpsertTransaction transaction1 false None;
      CallUpsertData data1 false None;
      CallUpsertMessage confirmedMessage1 false None ]
  ∧ result run = None.
Proof. vm_compute. by split. Qed.

(** Scenario 6: the content store fails twice and then answers; the batch
    is persisted once. *)
Lemma content_store_flaps_then_recovers :
  let run := SequencedBroadcastBatch broadcast1 "A" "0x1" ∅ worldFlapping in
  result run = Returned None
  ∧ trace run =
      [ CallRetrieveData "ref1" (inl (Failure "unavailable"));
        CallRetrieveData "ref1" (inl (Failure "unavailable"));
        CallRetrieveData "ref1" (inr body1) ] ++ happyTrace
  ∧ ctxSleeps (world run) = 1.
Proof. vm_compute. by repeat split. Qed.

End aggregator_facts.

(** * Properties of [SequencedBroadcastBatch] *)

Module sequenced_facts.
Import aggregator aggregator_spec scenario.



Section Facts.
Context {DB PS : Type} `{!Plugin DB} `{!PublicStorage PS} `{!FFTypes}.
Implicit Types (w : @World DB PS).



End Facts.

Import scenario_more.



End sequenced_facts.

(** * Properties of the WebSocket transport *)

Module websockets_facts.
Import websockets scenario.

Section Facts.
Context {CB : Type} `{!Callbacks CB}.

Lemma matcher_admits (s : WSClientActionStartPayload) (sr : SubscriptionRef) :
  matcher s sr = true
  ↔ SubscriptionRef_Namespace sr = WSClientActionStartPayload_Namespace s
    ∧ SubscriptionRef_Name sr = WSClientActionStartPayload_Name s.
Proof. unfold matcher. by rewrite andb_true_iff, !bool_decide_eq_true. Qed.

(** C7: [start] on an ephemeral payload hands the connection, the filter
    and the options to [EphemeralSubscription] and returns its answer,
    whatever the namespace and name are; on a payload that is not ephemeral
    and has an empty namespace or name it returns the invalid-start-action
    error and calls nothing; otherwise it registers for the connection a
    matcher that admits a reference exactly when its namespace and its name
    are those of the payload. *)
Theorem start_handler (connID : string) (s : WSClientActionStartPayload) (cb : CB) :
  (WSClientActionStartPayload_Ephemeral s = true →
   start connID s cb =
     ((EphemeralSubscription connID (WSClientActionStartPayload_Filter s)
         (WSClientActionStartPayload_Options s) cb).1,
      (EphemeralSubscription connID (WSClientActionStartPayload_Filter s)
         (WSClientActionStartPayload_Options s) cb).2,
      [CallEphemeralSubscription connID (WSClientActionStartPayload_Filter s)
         (WSClientActionStartPayload_Options s)]))
  ∧ (WSClientActionStartPayload_Ephemeral s = false →
     WSClientActionStartPayload_Namespace s = ""
     ∨ WSClientActionStartPayload_Name s = "" →
     start connID s cb = (Some MsgWSInvalidStartAction, cb, []))
  ∧ (WSClientActionStartPayload_Ephemeral s = false →
     WSClientActionStartPayload_Namespace s ≠ "" →
     WSClientActionStartPayload_Name s ≠ "" →
     ∃ m : SubscriptionRef → bool,
       start connID s cb
         = (None, (RegisterConnection connID m cb).2, [CallRegisterConnection connID m])
       ∧ ∀ sr, m sr = true
               ↔ SubscriptionRef_Namespace sr = WSClientActionStartPayload_Namespace s
                 ∧ SubscriptionRef_Name sr = WSClientActionStartPayload_Name s).
Proof.
  unfold start. split; [|split].
  - intros ->. by destruct (EphemeralSubscription _ _ _ _).
  - intros -> Hempty.
    destruct Hempty as [-> | ->]; simpl; [done|].
    by rewrite orb_true_r.
  - intros -> Hns Hname.
    rewrite (bool_decide_eq_false_2 _ Hns), (bool_decide_eq_false_2 _ Hname). simpl.
    exists (matcher s). split; [|apply matcher_admits].
    by destruct (RegisterConnection _ _ _).
Qed.

End Facts.

(** C7 on the three start actions of the scenario. *)
Lemma start_handler_witness :
  (start "conn1" startEphemeral noConnections).1.2
    = {| ephemeral := [("conn1", noFilter, noOptions)]; registered := [] |}
  ∧ start "conn1" startUnnamed noConnections
      = (Some MsgWSInvalidStartAction, noConnections, [])
  ∧ ∃ m, (start "conn1" startDurable noConnections).2
           = [CallRegisterConnection "conn1" m]
         ∧ m {| SubscriptionRef_Namespace := "ns1"; SubscriptionRef_Name := "sub1" |}
             = true
         ∧ m {| SubscriptionRef_Namespace := "ns1"; SubscriptionRef_Name := "sub2" |}
             = false.
Proof.
  destruct (start_handler "conn1" startEphemeral noConnections) as (Heph & _ & _).
  destruct (start_handler "conn1" startUnnamed noConnections) as (_ & Hbad & _).
  destruct (start_handler "conn1" startDurable noConnections) as (_ & _ & Hreg).
  split; [|split].
  - by rewrite Heph.
  - apply Hbad; [reflexivity|by right].
  - destruct Hreg as (m & -> & Hm); [reflexivity|discriminate|discriminate|].
    exists m. split; [reflexivity|]. split.
    + by apply Hm.
    + apply not_true_is_false. intros Hadm. apply Hm in Hadm as [_ Hname].
      discriminate Hname.
Defined.

End websockets_facts.

(** * Properties of the consumer client *)

Module event_streams_facts.
Import event_streams scenario.

Section Facts.
Context {H : Type} `{!Imports H} (config : Config).

(** C8, as the code has it: the only frame the ['message'] listener writes
    is [{type:"ack", topic}] with the configured topic, once
    [handleMessage] has resolved and not otherwise; that frame has no
    [id]. *)
Theorem ack_frames_carry_the_topic (message : string) (c : Client) :
  framesSentOn config message c
    = (if (handleMessage message (handlers c)).2
       then [JSON_stringify (JObject [("type", JString "ack");
                                      ("topic", JString (topic config))])]
       else [])
  ∧ field "id" (ackFrame config) = None.
Proof.
  split; [|done]. unfold framesSentOn, addEventHandlers, onMessage. simpl.
  destruct (handleMessage message (handlers c)) as [h [|]]; simpl.
  - by rewrite drop_app_length.
  - by rewrite drop_all.
Qed.

End Facts.

(** C8 as stated fails: on a frame that delivers one member registration
    the client runs the handler and writes one frame, and that frame is not
    of the shape [{type:"ack", id}]. *)
Lemma ack_frame_lacks_id :
  JSON_parse (frameOf [memberRegistered]) = Some [memberRegistered]
  ∧ handlers (onMessage config1 (frameOf [memberRegistered]) client0) = 1
  ∧ ∃ frame, framesSentOn config1 (frameOf [memberRegistered]) client0 = [frame]
             ∧ ¬ isAckWithId frame.
Proof.
  split; [vm_compute; reflexivity|]. split; [vm_compute; reflexivity|].
  eexists. split; [vm_compute; reflexivity|].
  intros [id Hid]. discriminate Hid.
Qed.

End event_streams_facts.

(** * Properties of the subscription table *)

Module sqlcommon_facts.
Import sqlcommon scenario.

(** C6: on a table holding a row under [(namespace, name)], an upsert of a
    subscription with that key and a non-null id other than the row's
    answers [IDMismatch] and leaves the table as it was; the same
    subscription with its id blanked is then accepted, and the row under
    that key, and only that row, becomes the caller's record under the id
    the row had. *)
Theorem UpsertSubscription_id_mismatch
    (sub row : Subscription) (id : UUID) (flag : bool) (t : Table) :
  subscriptions t !! key sub = Some row →
  Subscription_ID sub = Some id →
  Subscription_ID row ≠ Some id →
  UpsertSubscription sub flag t = (Some IDMismatch, sub, t)
  ∧ UpsertSubscription (Subscription_setID None sub) flag t
      = (None,
         Subscription_setID (Subscription_ID row) sub,
         {| subscriptions :=
              <[key sub := Subscription_setID (Subscription_ID row) sub]>
                (subscriptions t);
            uuids := uuids t |}).
Proof.
  intros Hrow Hid Hne. unfold UpsertSubscription. split.
  - rewrite Hrow, Hid. by destruct (decide (Subscription_ID row = Some id)).
  - change (key (Subscription_setID None sub)) with (key sub). by rewrite Hrow.
Qed.

(** C6 on the test's table: the update under a fresh id is refused, the
    update with the id blanked goes through. *)
Lemma UpsertSubscription_id_mismatch_witness :
  (UpsertSubscription subscriptionUpdated true tableWithSubscription1).1.1
    = Some IDMismatch
  ∧ (UpsertSubscription (Subscription_setID None subscriptionUpdated) true
       tableWithSubscription1).1.1 = None.
Proof.
  destruct (UpsertSubscription_id_mismatch subscriptionUpdated
              (Subscription_setID (Some (uuidOfN 1)) subscription1)
              (uuidOfN 77) true tableWithSubscription1) as [Hrefused Haccepted].
  - vm_compute. reflexivity.
  - reflexivity.
  - vm_compute. discriminate.
  - by rewrite Hrefused, Haccepted.
Defined.

End sqlcommon_facts.
(** * More properties of the aggregator *)

Module aggregator_more.
Import aggregator aggregator_spec aggregator_order aggregator_facts scenario.

Lemma Classified_error (t : list Call) (e : error) :
  Classified (Some e) t → ∃ pre c, t = pre ++ [c] ∧ verdict c = Some (Some e).
Proof.
  induction t as [|c t IH]; simpl; [done|].
  destruct (verdict c) as [v|] eqn:Hv.
  - intros [-> ->]. by exists [], c.
  - intros (pre & c' & -> & Hc')%IH. by exists (c :: pre), c'.
Qed.

Lemma verdict_error (c : Call) (e : error) :
  verdict c = Some (Some e) →
  isUpsert c = true ∧ errorOf c = Some e ∧ e ≠ HashMismatch.
Proof.
  unfold verdict. destruct (isUpsert c); [|done].
  destruct (errorOf c) as [e'|]; [|done].
  destruct (decide (e' = HashMismatch)).
  - by destruct (isBatchLevelUpsert c).
  - by intros [= <-].
Qed.

Lemma sameSurroundings_refl {DB PS} (w : @World DB PS) : sameSurroundings w w.
Proof. done. Qed.

Lemma sameSurroundings_trans {DB PS} (w1 w2 w3 : @World DB PS) :
  sameSurroundings w1 w2 → sameSurroundings w2 w3 → sameSurroundings w1 w3.
Proof. unfold sameSurroundings. intros (-> & -> & ->) (-> & -> & ->). done. Qed.

Lemma sameSurroundings_withDatabase {DB PS} (w : @World DB PS) (d : DB) :
  sameSurroundings w (withDatabase d w).
Proof. done. Qed.

Section Facts.
Context {DB PS : Type} `{!Plugin DB} `{!PublicStorage PS} `{!FFTypes}.
Implicit Types (w : @World DB PS).

(** ** The loop *)

Lemma rangeUntilError_Forall_in {A} (P : Call → Prop)
    (f : nat → A → @M DB PS (option error)) (xs : list A) :
  (∀ i x w, x ∈ xs → Forall P (trace (f i x w))) →
  ∀ i w, Forall P (trace (rangeUntilError f i xs w)).
Proof.
  induction xs as [|x xs IH]; intros Hf i w.
  { by apply Forall_nil. }
  rewrite rangeUntilError_cons.
  pose proof (Hf i x w (list_elem_of_here _ _)) as Hx.
  destruct (f i x w) as [[[e|] w1] t1]; [done|].
  assert (Forall P (trace (rangeUntilError f (S i) xs w1))) as Hrest.
  { apply IH. intros j y w' Hy. apply Hf. by apply list_elem_of_further. }
  destruct (rangeUntilError f (S i) xs w1) as [[r w2] t2].
  by apply Forall_app.
Qed.

Lemma rangeUntilError_length {A} (f : nat → A → @M DB PS (option error)) :
  (∀ i x w, length (trace (f i x w)) ≤ 1) →
  ∀ xs i w, length (trace (rangeUntilError f i xs w)) ≤ length xs.
Proof.
  intros Hf xs. induction xs as [|x xs IH]; intros i w; [done|].
  rewrite rangeUntilError_cons. specialize (Hf i x w).
  destruct (f i x w) as [[[e|] w1] t1].
  { unfold trace in *; simpl in *. lia. }
  specialize (IH (S i) w1).
  destruct (rangeUntilError f (S i) xs w1) as [[r w2] t2].
  unfold trace in *; simpl in *. rewrite length_app. lia.
Qed.

Lemma rangeUntilError_surroundings {A} (f : nat → A → @M DB PS (option error)) :
  (∀ i x w, sameSurroundings w (world (f i x w))) →
  ∀ xs i w, sameSurroundings w (world (rangeUntilError f i xs w)).
Proof.
  intros Hf xs. induction xs as [|x xs IH]; intros i w; [done|].
  rewrite rangeUntilError_cons. specialize (Hf i x w).
  destruct (f i x w) as [[[e|] w1] t1]; [done|].
  specialize (IH (S i) w1).
  destruct (rangeUntilError f (S i) xs w1) as [[r w2] t2].
  unfold world in *; simpl in *. by eapply sameSurroundings_trans.
Qed.

(** ** The entries *)

Lemma persistBatchData_entry batch i data w :
  let run := persistBatchData batch i data w in
  Forall (λ c, ∃ d e, c = CallUpsertData d false e ∧ data = Some d ∧ hashMatchesValue d)
    (trace run)
  ∧ length (trace run) ≤ 1
  ∧ sameSurroundings w (world run).
Proof.
  cbv zeta. rewrite persistBatchData_eq.
  destruct data as [d|]; [|split; [constructor|split; [simpl; lia|done]]].
  destruct (Value_Hash _) as [?|hash] eqn:Hv; [split; [constructor|split; [simpl; lia|done]]|].
  destruct (decide _) as [Hh|]; [|split; [constructor|split; [simpl; lia|done]]].
  destruct (upsertData _ _ _) as [err db]. repeat split; [|done].
  apply Forall_singleton. exists d, err. repeat split. by exists hash.
Qed.

Lemma persistBatchMessage_entry batch now i msg w :
  let run := persistBatchMessage batch now i msg w in
  Forall (λ c, ∃ m e, c = CallUpsertMessage (confirmedMessage batch now m) false e
                      ∧ msg = Some m ∧ Message_Verify m = None)
    (trace run)
  ∧ length (trace run) ≤ 1
  ∧ sameSurroundings w (world run).
Proof.
  cbv zeta. rewrite persistBatchMessage_eq.
  destruct msg as [m|]; [|split; [constructor|split; [simpl; lia|done]]].
  destruct (Message_Verify m) eqn:Hv; [split; [constructor|split; [simpl; lia|done]]|].
  cbv zeta. destruct (upsertMessage _ _ _) as [err db]. repeat split; [|done].
  apply Forall_singleton. by exists m, err.
Qed.

Lemma dataLoop_calls batch xs i w :
  Forall (λ c, ∃ d e, c = CallUpsertData d false e ∧ Some d ∈ xs ∧ hashMatchesValue d)
    (trace (rangeUntilError (persistBatchData batch) i xs w)).
Proof.
  apply rangeUntilError_Forall_in. intros j x w' Hx.
  eapply Forall_impl; [apply persistBatchData_entry|].
  intros c (d & e & -> & -> & Hd). eauto.
Qed.

Lemma messageLoop_calls batch now xs i w :
  Forall (λ c, ∃ m e, c = CallUpsertMessage (confirmedMessage batch now m) false e
                      ∧ Some m ∈ xs ∧ Message_Verify m = None)
    (trace (rangeUntilError (persistBatchMessage batch now) i xs w)).
Proof.
  apply rangeUntilError_Forall_in. intros j x w' Hx.
  eapply Forall_impl; [apply persistBatchMessage_entry|].
  intros c (m & e & -> & -> & Hm). eauto.
Qed.

(** ** The whole run, path by path *)

Lemma persistBatchWithTransaction_parts batch now protocolTxId info tx w :
  let run := persistBatchWithTransaction batch now protocolTxId info tx w in
  sameSurroundings w (world run)
  ∧ ∃ e td tm,
      trace run
        = CallUpsertTransaction (Transaction_setUpdates now protocolTxId info tx) false e
          :: td ++ tm
      ∧ Forall (dataEntryCall batch) td
      ∧ Forall (messageEntryCall batch now) tm
      ∧ length td ≤ length (BatchPayload_Data (Batch_Payload batch))
      ∧ length tm ≤ length (BatchPayload_Messages (Batch_Payload batch))
      ∧ (e ≠ None → td = [] ∧ tm = []).
Proof.
  cbv zeta. rewrite persistBatchWithTransaction_eq. cbv zeta.
  destruct (upsertTransaction _ _ _) as [[err|] db].
  { split; [done|]. exists (Some err), [], []. repeat split; try constructor; simpl; lia. }
  pose proof (dataLoop_calls batch (BatchPayload_Data (Batch_Payload batch)) 0
                (withDatabase db w)) as Hd.
  pose proof (rangeUntilError_length _ (λ i x w, proj1 (proj2 (persistBatchData_entry batch i x w)))
                (BatchPayload_Data (Batch_Payload batch)) 0 (withDatabase db w)) as Hdl.
  pose proof (rangeUntilError_surroundings _
                (λ i x w, proj2 (proj2 (persistBatchData_entry batch i x w)))
                (BatchPayload_Data (Batch_Payload batch)) 0 (withDatabase db w)) as Hds.
  destruct (rangeUntilError (persistBatchData batch) _ _ _) as [[[ed|] wd] td].
  { unfold world, trace in *; simpl in *. split; [done|].
    exists None, td, []. rewrite app_nil_r. repeat split; try done; try constructor.
    simpl; lia. }
  pose proof (messageLoop_calls batch now (BatchPayload_Messages (Batch_Payload batch))
                0 wd) as Hm.
  pose proof (rangeUntilError_length _
                (λ i x w, proj1 (proj2 (persistBatchMessage_entry batch now i x w)))
                (BatchPayload_Messages (Batch_Payload batch)) 0 wd) as Hml.
  pose proof (rangeUntilError_surroundings _
                (λ i x w, proj2 (proj2 (persistBatchMessage_entry batch now i x w)))
                (BatchPayload_Messages (Batch_Payload batch)) 0 wd) as Hms.
  destruct (rangeUntilError (persistBatchMessage batch now) _ _ _) as [[rm wm] tm].
  unfold world, trace in *; simpl in *. split.
  { eapply sameSurroundings_trans; [|exact Hms]. exact Hds. }
  by exists None, td, tm.
Qed.

Lemma newTransaction_subject batch now author batchID :
  Batch_ID batch = Some batchID →
  subjectMatches (newTransaction (Batch_setConfirmed now batch) author) author batch.
Proof. intros Hid. unfold subjectMatches. simpl. by rewrite Hid. Qed.

(** persistBatch leaves one of the traces of the grammar, and touches the
    database only. *)
Lemma persistBatch_trace_grammar batch author protocolTxId info w :
  let run := persistBatch batch author protocolTxId info w in
  persistBatchTrace batch author (clock w) protocolTxId info (trace run)
  ∧ sameSurroundings w (world run).
Proof.
  cbv zeta. rewrite persistBatch_eq.
  destruct (Batch_ID batch) as [batchID|] eqn:Hid; [|by split; [constructor|]].
  destruct (TransactionRef_ID _) as [txID|] eqn:Htx; [|by split; [constructor|]].
  destruct (decide (Batch_Hash batch = _)) as [Hhash|]; [|by split; [constructor|]].
  destruct (decide (Batch_Author batch = author)) as [Hauthor|]; [|by split; [constructor|]].
  cbv zeta. destruct (upsertBatch _ _ _) as [[err|] db].
  { by split; [constructor|]. }
  destruct (getTransactionById _ _ _) as [[found gerr] db2]. simpl.
  set (w2 := withDatabase db2 (withDatabase db w)).
  set (batch' := Batch_setConfirmed (clock w) batch).
  assert (∀ tx, subjectMatches tx author batch →
    match found with
    | Some existing => tx = existing
    | None => tx = newTransaction batch' author
    end →
    let run := persistBatchWithTransaction batch' (clock w) protocolTxId info tx w2 in
    persistBatchTrace batch author (clock w) protocolTxId info
      (trace (let '(r, w3, t3) := run in
              (r, w3,
               CallUpsertBatch batch' false None
               :: CallGetTransactionById (Batch_Namespace batch) txID (found, gerr)
               :: t3)))
    ∧ sameSurroundings w
        (world (let '(r, w3, t3) := run in
                (r, w3,
                 CallUpsertBatch batch' false None
                 :: CallGetTransactionById (Batch_Namespace batch) txID (found, gerr)
                 :: t3)))) as Hgo.
  { intros tx Hsubj Hfound. cbv zeta.
    destruct (persistBatchWithTransaction_parts batch' (clock w) protocolTxId info tx w2)
      as (Hs & terr & td & tm & Ht & Hd & Hm & Hdl & Hml & He).
    destruct (persistBatchWithTransaction _ _ _ _ _ _) as [[r w3] t3].
    unfold trace, world in *; simpl in *. subst t3. split; [|done].
    by apply (pbt_transaction batch author (clock w) protocolTxId info txID found gerr tx). }
  destruct found as [tx|].
  - destruct (subjectMismatch tx author batch' batchID) eqn:Hmm.
    + split; [|done]. unfold trace; simpl. apply pbt_other_subject.
      intros Hm. apply (subjectMismatch_false tx author batch (clock w) batchID Hid) in Hm.
      subst batch'. congruence.
    + apply Hgo; [|done].
      by apply (subjectMismatch_false tx author batch (clock w) batchID Hid).
  - apply Hgo; [|done]. by eapply newTransaction_subject.
Qed.

Lemma grammar_expected batch author now protocolTxId info (t : list Call) :
  persistBatchTrace batch author now protocolTxId info t →
  Forall (expectedCall batch author now protocolTxId info) t.
Proof.
  intros Hg. destruct Hg as [|e|id existing gerr Hne
                              |id found gerr tx e td tm Hid Hsubj Hfound Hd Hm Hdl Hml He].
  - constructor.
  - apply Forall_singleton. left. eauto.
  - apply Forall_cons; split; [left; eauto|].
    apply Forall_singleton. right; left; eauto.
  - apply Forall_cons; split; [left; eauto|].
    apply Forall_cons; split; [right; left; eauto|].
    apply Forall_cons; split; [right; right; left; eauto|].
    apply Forall_app; split.
    + eapply Forall_impl; [exact Hd|]. intros c Hc. by do 3 right; left.
    + eapply Forall_impl; [exact Hm|]. intros c Hc. by do 4 right.
Qed.

Lemma same_stage_staged (n : nat) (l : list Call) :
  4 ≤ n → Forall (λ c, stage c = n) l → StronglySorted staged l.
Proof.
  intros Hn. induction 1 as [|c l Hc Hl IH]; constructor; [done|].
  eapply Forall_impl; [exact Hl|]. intros c' Hc'. right. simpl in *.
  split; [congruence|lia].
Qed.

Lemma grammar_staged batch author now protocolTxId info (t : list Call) :
  persistBatchTrace batch author now protocolTxId info t → StronglySorted staged t.
Proof.
  intros Hg. destruct Hg as [|e|id existing gerr Hne
                              |id found gerr tx e td tm Hid Hsubj Hfound Hd Hm Hdl Hml He].
  - constructor.
  - repeat constructor.
  - rewrite !StronglySorted_cons, !Forall_cons.
    repeat split; first [ by left; simpl; lia | constructor ].
  - assert (Forall (λ c, stage c = 4) td) as Hd4.
    { eapply Forall_impl; [exact Hd|]. by intros c (d & e' & -> & _). }
    assert (Forall (λ c, stage c = 5) tm) as Hm5.
    { eapply Forall_impl; [exact Hm|]. by intros c (m & e' & -> & _). }
    assert (∀ c0, stage c0 < 4 → Forall (staged c0) (td ++ tm)) as Hlater.
    { intros c0 Hc0. apply Forall_app; split.
      - eapply Forall_impl; [exact Hd4|]. intros c Hc. left. simpl in Hc. lia.
      - eapply Forall_impl; [exact Hm5|]. intros c Hc. left. simpl in Hc. lia. }
    rewrite !StronglySorted_cons, !Forall_cons.
    repeat split;
      first [ by left; simpl; lia | by apply Hlater; simpl; lia | idtac ].
    apply StronglySorted_app_2.
    + intros x1 x2 H1 H2. rewrite Forall_forall in Hd4, Hm5.
      left. rewrite (Hd4 x1 H1), (Hm5 x2 H2). lia.
    + apply (same_stage_staged 4); [lia|done].
    + apply (same_stage_staged 5); [lia|done].
Qed.

Lemma grammar_length batch author now protocolTxId info (t : list Call) :
  persistBatchTrace batch author now protocolTxId info t →
  length t ≤ 3 + length (BatchPayload_Data (Batch_Payload batch))
             + length (BatchPayload_Messages (Batch_Payload batch)).
Proof.
  intros Hg. destruct Hg as [|e|id existing gerr Hne
                              |id found gerr tx e td tm Hid Hsubj Hfound Hd Hm Hdl Hml He];
    simpl; try lia.
  rewrite length_app. lia.
Qed.

Lemma persistBatchData_upserted batch xs i w :
  let run := rangeUntilError (persistBatchData batch) i xs w in
  result run = None →
  omap upsertedData (trace run) =
    omap (λ entry : option Data,
            d ← entry;
            match Value_Hash (Data_Value d) with
            | inr hash => if decide (Data_Hash d = Some hash) then Some d else None
            | inl _ => None
            end) xs.
Proof.
  cbv zeta. revert i w. induction xs as [|entry xs IH]; intros i w; [done|].
  rewrite rangeUntilError_cons, persistBatchData_eq.
  assert (∀ w', result (let '(r, w2, t2) := rangeUntilError (persistBatchData batch) (S i)
                                              xs w' in (r, w2, [] ++ t2)) = None →
                omap upsertedData
                  (trace (let '(r, w2, t2) := rangeUntilError (persistBatchData batch)
                                                (S i) xs w' in (r, w2, [] ++ t2)))
                = omap (λ entry : option Data,
                          d ← entry;
                          match Value_Hash (Data_Value d) with
                          | inr hash =>
                              if decide (Data_Hash d = Some hash) then Some d else None
                          | inl _ => None
                          end) xs) as Hskip.
  { intros w'. specialize (IH (S i) w').
    by destruct (rangeUntilError _ (S i) xs w') as [[r w2] t2]. }
  destruct entry as [d|]; simpl; [|apply Hskip].
  destruct (Value_Hash (Data_Value d)) as [?|hash]; [apply Hskip|].
  destruct (decide (Data_Hash d = Some hash)); [|apply Hskip].
  destruct (upsertData _ _ _) as [err db].
  destruct (returned err); [done|].
  specialize (IH (S i) (withDatabase db w)).
  destruct (rangeUntilError _ (S i) xs _) as [[r w2] t2].
  unfold result, trace in *; simpl in *. intros Hr. f_equal. by apply IH.
Qed.

Lemma omap_upsertedData_messages batch now (tm : list Call) :
  Forall (messageEntryCall batch now) tm → omap upsertedData tm = [].
Proof.
  intros Hm. apply omap_Forall_None.
  eapply Forall_impl; [exact Hm|]. by intros c (m & e & -> & _).
Qed.

Lemma omap_upsertedMessage_data batch (td : list Call) :
  Forall (dataEntryCall batch) td → omap upsertedMessage td = [].
Proof.
  intros Hd. apply omap_Forall_None.
  eapply Forall_impl; [exact Hd|]. by intros c (d & e & -> & _).
Qed.

(** ** Properties of [persistBatch] beyond its classification of errors *)

(** X1: when [persistBatch] returns an error, the last thing it did was an
    upsert, that upsert failed with this very error, and the error is not
    the [HashMismatch] sentinel: errors come from database writes only,
    never from validation, from the read, or from the sentinel. *)
Theorem persistBatch_error_is_failed_upsert batch author protocolTxId info w e :
  result (persistBatch batch author protocolTxId info w) = Some e →
  ∃ pre c,
    trace (persistBatch batch author protocolTxId info w) = pre ++ [c]
    ∧ isUpsert c = true ∧ errorOf c = Some e ∧ e ≠ HashMismatch.
Proof.
  intros Hr.
  pose proof (persistBatch_Classified batch author protocolTxId info w) as Hcl.
  cbv zeta in Hcl. rewrite Hr in Hcl.
  apply Classified_error in Hcl as (pre & c & Ht & Hv).
  apply verdict_error in Hv. eauto.
Qed.

(** X2: the database calls of one [persistBatch] come in the order batch
    upsert, transaction lookup, transaction upsert, data upserts, message
    upserts; of the first three there is at most one each. *)
Theorem persistBatch_write_order batch author protocolTxId info w :
  StronglySorted staged (trace (persistBatch batch author protocolTxId info w)).
Proof.
  eapply grammar_staged. apply persistBatch_trace_grammar.
Qed.

(** X3: one [persistBatch] makes at most three database calls plus one per
    data entry and one per message entry of the payload. *)
Theorem persistBatch_call_bound batch author protocolTxId info w :
  length (trace (persistBatch batch author protocolTxId info w))
    ≤ 3 + length (BatchPayload_Data (Batch_Payload batch))
        + length (BatchPayload_Messages (Batch_Payload batch)).
Proof.
  eapply grammar_length. apply persistBatch_trace_grammar.
Qed.

(** X4: every data record [persistBatch] hands to the store is a non-null
    entry of the payload whose hash is the recomputed hash of its value,
    and is upserted with [allowHashUpdate=false]. *)
Theorem persistBatch_data_written_matches_hash
    batch author protocolTxId info w d a e :
  CallUpsertData d a e ∈ trace (persistBatch batch author protocolTxId info w) →
  a = false
  ∧ Some d ∈ BatchPayload_Data (Batch_Payload batch)
  ∧ hashMatchesValue d.
Proof.
  intros Hin.
  pose proof (grammar_expected _ _ _ _ _ _
                (proj1 (persistBatch_trace_grammar batch author protocolTxId info w)))
    as Hall.
  rewrite Forall_forall in Hall.
  destruct (Hall _ Hin)
    as [(? & [=])|[(? & ? & [=])|[(? & ? & [=] & _)
       |[(d' & e' & [= -> -> ->] & Hd & Hh)|(? & ? & [=] & _)]]]].
  done.
Qed.

(** X5: for a batch that is accepted (the transaction upsert succeeded and
    nil is returned), the data records handed to the store are exactly the
    non-null entries of the payload whose hash matches their value, in
    payload order. *)
Theorem persistBatch_upserts_valid_data batch author protocolTxId info w tx :
  result (persistBatch batch author protocolTxId info w) = None →
  CallUpsertTransaction tx false None
    ∈ trace (persistBatch batch author protocolTxId info w) →
  omap upsertedData (trace (persistBatch batch author protocolTxId info w))
    = validData batch.
Proof.
  rewrite persistBatch_eq.
  destruct (Batch_ID batch) as [batchID|]; [|by intros _ ?%elem_of_nil].
  destruct (TransactionRef_ID _) as [txID|]; [|by intros _ ?%elem_of_nil].
  destruct (decide (Batch_Hash batch = _)); [|by intros _ ?%elem_of_nil].
  destruct (decide (Batch_Author batch = author)); [|by intros _ ?%elem_of_nil].
  cbv zeta. destruct (upsertBatch _ _ _) as [[err|] db].
  { unfold trace; simpl. intros _ Hin. by apply list_elem_of_singleton in Hin. }
  destruct (getTransactionById _ _ _) as [[found gerr] db2]. simpl.
  set (w2 := withDatabase db2 (withDatabase db w)).
  set (batch' := Batch_setConfirmed (clock w) batch).
  assert (∀ tx0,
    let run := persistBatchWithTransaction batch' (clock w) protocolTxId info tx0 w2 in
    let c1 := CallUpsertBatch batch' false None in
    let c2 := CallGetTransactionById (Batch_Namespace batch) txID (found, gerr) in
    result (let '(r, w3, t3) := run in (r, w3, c1 :: c2 :: t3)) = None →
    CallUpsertTransaction tx false None
      ∈ trace (let '(r, w3, t3) := run in (r, w3, c1 :: c2 :: t3)) →
    omap upsertedData (trace (let '(r, w3, t3) := run in (r, w3, c1 :: c2 :: t3)))
      = validData batch) as Hframe.
  { intros tx0. cbv zeta. rewrite persistBatchWithTransaction_eq. cbv zeta.
    destruct (upsertTransaction _ _ _) as [[err|] db3].
    { unfold trace; simpl. intros _ Hin.
      apply elem_of_cons in Hin as [?|Hin]; [done|].
      apply elem_of_cons in Hin as [?|Hin]; [done|].
      by apply list_elem_of_singleton in Hin. }
    pose proof (persistBatchData_upserted batch'
                  (BatchPayload_Data (Batch_Payload batch')) 0 (withDatabase db3 w2))
      as Hd.
    destruct (rangeUntilError (persistBatchData batch') _ _ _) as [[[ed|] wd] td];
      [done|].
    pose proof (messageLoop_calls batch' (clock w)
                  (BatchPayload_Messages (Batch_Payload batch')) 0 wd) as Hm.
    destruct (rangeUntilError (persistBatchMessage batch' (clock w)) _ _ _)
      as [[rm wm] tm].
    unfold result, trace in *; simpl in *. intros Hr _.
    change (omap upsertedData (td ++ tm) = validData batch).
    rewrite omap_app, (Hd eq_refl), (omap_Forall_None upsertedData tm), app_nil_r;
      [done|].
    eapply Forall_impl; [exact Hm|]. by intros c (m & e' & -> & _). }
  destruct found as [tx0|].
  - destruct (subjectMismatch tx0 author batch' batchID).
    + unfold trace; simpl. intros _ Hin.
      apply elem_of_cons in Hin as [?|Hin]; [done|].
      by apply list_elem_of_singleton in Hin.
    + apply Hframe.
  - apply Hframe.
Qed.

(** X6: every message [persistBatch] hands to the store is a non-null entry
    of the payload that passed [Verify], carrying the batch's id and the
    confirmation time of this run, and is upserted with
    [allowHashUpdate=false]; this holds for the messages written before a
    failure too. *)
Theorem persistBatch_message_written_verified
    batch author protocolTxId info w m a e :
  CallUpsertMessage m a e ∈ trace (persistBatch batch author protocolTxId info w) →
  a = false
  ∧ Message_BatchID m = Batch_ID batch
  ∧ Message_Confirmed m = Some (clock w)
  ∧ ∃ entry,
      Some entry ∈ BatchPayload_Messages (Batch_Payload batch)
      ∧ Message_Verify entry = None
      ∧ m = confirmedMessage batch (clock w) entry.
Proof.
  intros Hin.
  pose proof (grammar_expected _ _ _ _ _ _
                (proj1 (persistBatch_trace_grammar batch author protocolTxId info w)))
    as Hall.
  rewrite Forall_forall in Hall.
  destruct (Hall _ Hin)
    as [(? & [=])|[(? & ? & [=])|[(? & ? & [=] & _)
       |[(? & ? & [=] & _)|(m' & e' & [= -> -> ->] & Hm & Hv)]]]].
  repeat split; try done. by exists m'.
Qed.

(** X7: the batch [persistBatch] hands to the store is the inbound batch
    with only its confirmation time set; every transaction record it hands
    to the store has the subject of this batch (type pin, the ledger's
    author, the batch's namespace, the batch's id), the confirmation time
    of this run, the protocol id and info of the call, and status
    confirmed; both are upserted with [allowHashUpdate=false]. *)
Theorem persistBatch_batch_and_transaction_written
    batch author protocolTxId info w :
  let run := persistBatch batch author protocolTxId info w in
  (∀ b a e, CallUpsertBatch b a e ∈ trace run →
     a = false ∧ b = Batch_setConfirmed (clock w) batch)
  ∧ (∀ tx a e, CallUpsertTransaction tx a e ∈ trace run →
       a = false
       ∧ subjectMatches tx author batch
       ∧ Transaction_Confirmed tx = Some (clock w)
       ∧ Transaction_ProtocolID tx = protocolTxId
       ∧ Transaction_Info tx = info
       ∧ Transaction_Status tx = TransactionStatusConfirmed).
Proof.
  cbv zeta.
  pose proof (grammar_expected _ _ _ _ _ _
                (proj1 (persistBatch_trace_grammar batch author protocolTxId info w)))
    as Hall.
  rewrite Forall_forall in Hall. split.
  - intros b a e Hin.
    by destruct (Hall _ Hin)
      as [(? & [= -> -> ->])|[(? & ? & [=])|[(? & ? & [=] & _)
         |[(? & ? & [=] & _)|(? & ? & [=] & _)]]]].
  - intros tx a e Hin.
    by destruct (Hall _ Hin)
      as [(? & [=])|[(? & ? & [=])|[(tx' & e' & [= -> -> ->] & Hs)
         |[(? & ? & [=] & _)|(? & ? & [=] & _)]]]].
Qed.

(** X8: when a data upsert fails with anything but the sentinel,
    [persistBatch] returns that error and has written no message: the
    message entries are reached only after every data entry went through. *)
Theorem persistBatch_failed_data_stops_messages
    batch author protocolTxId info w d a e :
  CallUpsertData d a (Some e) ∈ trace (persistBatch batch author protocolTxId info w) →
  e ≠ HashMismatch →
  result (persistBatch batch author protocolTxId info w) = Some e
  ∧ omap upsertedMessage (trace (persistBatch batch author protocolTxId info w)) = [].
Proof.
  intros Hin Hne.
  apply list_elem_of_split in Hin as (pre & post & Ht).
  pose proof (persistBatch_Classified batch author protocolTxId info w) as Hcl.
  cbv zeta in Hcl. rewrite Ht in Hcl.
  apply (Classified_ending _ _ _ _ (Some e)) in Hcl as [-> Hr].
  2:{ unfold verdict. simpl. by destruct (decide (e = HashMismatch)). }
  split; [done|].
  destruct (persistBatch_trace_grammar batch author protocolTxId info w) as [Hg _].
  cbv zeta in Hg. rewrite Ht in Hg |- *. clear Ht Hr.
  inversion Hg as [Hnil|e0 Heq|id existing gerr Hno Heq
                   |id found gerr tx e0 td tm Hid Hsubj Hfound Hd Hm Hdl Hml He Heq].
  - by destruct pre.
  - by destruct pre as [|? [|? ?]].
  - done.
  - simpl.
    destruct tm as [|x tm' _] using rev_ind.
    + rewrite app_nil_r. by apply (omap_upsertedMessage_data batch).
    + exfalso. rewrite Forall_app, Forall_singleton in Hm. destruct Hm as [_ Hx].
      unfold messageEntryCall in Hx. destruct Hx as (m & e' & Hx & _). subst x.
      rewrite !app_comm_cons, app_assoc in Heq.
      apply app_inj_tail in Heq as [_ Heq]. discriminate Heq.
Qed.

(** X9: the loop over the entries composes: running it over [xs ++ ys] is
    running it over [xs] and, unless that returned an error, going on over
    [ys] with the index moved on by the length of [xs]; an error in [xs]
    means no entry of [ys] is touched. *)
Theorem rangeUntilError_app {A} (f : nat → A → @M DB PS (option error))
    (xs ys : list A) (i : nat) w :
  rangeUntilError f i (xs ++ ys) w =
    let '(r, w1, t1) := rangeUntilError f i xs w in
    match r with
    | Some e => (Some e, w1, t1)
    | None =>
        let '(r2, w2, t2) := rangeUntilError f (i + length xs) ys w1 in
        (r2, w2, t1 ++ t2)
    end.
Proof.
  revert i w. induction xs as [|x xs IH]; intros i w.
  { simpl. rewrite Nat.add_0_r. unfold mret, M_ret.
    by destruct (rangeUntilError f i ys w) as [[r2 w2] t2]. }
  rewrite <- app_comm_cons, !rangeUntilError_cons.
  destruct (f i x w) as [[[e|] w1] t1]; [done|].
  rewrite IH.
  destruct (rangeUntilError f (S i) xs w1) as [[[e|] w2] t2]; [done|].
  replace (i + length (x :: xs)) with (S i + length xs) by (simpl; lia).
  destruct (rangeUntilError f (S i + length xs) ys w2) as [[r3 w3] t3].
  by rewrite app_assoc.
Qed.

(** ** The objects behind the pointers *)

Lemma Batch_setMessages_same (b : Batch) :
  Batch_setMessages (BatchPayload_Messages (Batch_Payload b)) b = b.
Proof. by destruct b as [? ? ? ? ? []]. Qed.

Lemma stampedEntry_refl batch now (xs : list (option Message)) :
  Forall2 (stampedEntry batch now) xs xs.
Proof. induction xs; constructor; [by left|done]. Qed.

Lemma persistBatchMessage_ptr_eq batch now i (msg : option Message) w :
  persistBatchMessage_ptr batch now i msg w =
    let '(r, w1, t) := persistBatchMessage batch now i msg w in
    ((r, stampEntry batch now msg), w1, t).
Proof.
  unfold persistBatchMessage_ptr, persistBatchMessage, stampEntry, confirmedMessage,
    UpsertMessage, mbind, M_bind, mret, M_ret.
  destruct msg as [m|]; [|done]. simpl.
  destruct (Message_Verify m); [done|].
  destruct (upsertMessage _ _ _) as [[err|] db]; [|done].
  by destruct (decide (err = HashMismatch)).
Qed.

(** The loop over the message pointers makes the calls of the loop over
    the messages, and leaves every entry as it was or stamped. *)
Lemma rangeUntilError_ptr_run batch now (xs : list (option Message)) :
  ∀ i w, ∃ ms,
    rangeUntilError_ptr (persistBatchMessage_ptr batch now) i xs w
      = (let '(r, w1, t) := rangeUntilError (persistBatchMessage batch now) i xs w in
         ((r, ms), w1, t))
    ∧ Forall2 (stampedEntry batch now) xs ms.
Proof.
  induction xs as [|x xs IH]; intros i w.
  { exists []. split; [done|constructor]. }
  rewrite rangeUntilError_cons. simpl. unfold mbind at 1. unfold M_bind at 1.
  rewrite persistBatchMessage_ptr_eq.
  destruct (persistBatchMessage batch now i x w) as [[[e|] w1] t1].
  - exists (stampEntry batch now x :: xs). unfold mret, M_ret. rewrite app_nil_r.
    split; [done|]. constructor; [by right|apply stampedEntry_refl].
  - destruct (IH (S i) w1) as (ms & Hrun & Hms).
    exists (stampEntry batch now x :: ms). unfold mbind, M_bind. rewrite Hrun.
    destruct (rangeUntilError _ (S i) xs w1) as [[r w2] t2].
    unfold mret, M_ret. rewrite app_nil_r.
    split; [done|]. constructor; [by right|done].
Qed.

Lemma persistBatchWithTransaction_ptr_run batch now protocolTxId info tx w :
  ∃ batch',
    persistBatchWithTransaction_ptr batch now protocolTxId info tx w
      = (let '(r, w1, t) := persistBatchWithTransaction batch now protocolTxId info tx w
         in ((r, batch'), w1, t))
    ∧ ∃ ms, batch' = Batch_setMessages ms batch
            ∧ Forall2 (stampedEntry batch now)
                (BatchPayload_Messages (Batch_Payload batch)) ms.
Proof.
  rewrite persistBatchWithTransaction_eq. cbv zeta.
  unfold persistBatchWithTransaction_ptr, UpsertTransaction, returned.
  unfold mbind at 1. unfold M_bind at 1.
  assert (∃ ms, batch = Batch_setMessages ms batch
                ∧ Forall2 (stampedEntry batch now)
                    (BatchPayload_Messages (Batch_Payload batch)) ms) as Hsame.
  { eexists. split; [symmetry; apply Batch_setMessages_same|apply stampedEntry_refl]. }
  destruct (upsertTransaction _ _ _) as [[err|] db].
  { exists batch. split; [|done]. unfold mret, M_ret.
    by destruct (decide (err = HashMismatch)). }
  unfold mbind at 1. unfold M_bind at 1.
  destruct (rangeUntilError (persistBatchData batch) _ _ _) as [[[e|] wd] td].
  { exists batch. split; [|done]. unfold mret, M_ret. simpl. by rewrite app_nil_r. }
  destruct (rangeUntilError_ptr_run batch now
              (BatchPayload_Messages (Batch_Payload batch)) 0 wd) as (ms & Hrun & Hms).
  exists (Batch_setMessages ms batch). split; [|by exists ms].
  unfold mbind, M_bind. rewrite Hrun.
  destruct (rangeUntilError (persistBatchMessage batch now) _ _ _) as [[rm wm] tm].
  unfold mret, M_ret. simpl. by rewrite app_nil_r.
Qed.

(** [persistBatch] with its pointers makes the calls, leaves the world and
    returns the error of [persistBatch]; its batch is left untouched when
    no call was made, and otherwise confirmed at the time of the run, with
    message entries as they were or stamped. *)
Lemma persistBatch_ptr_run batch author protocolTxId info w :
  ∃ batch',
    persistBatch_ptr batch author protocolTxId info w
      = (let '(r, w1, t) := persistBatch batch author protocolTxId info w in
         ((r, batch'), w1, t))
    ∧ stampedBatch batch (clock w) batch'
    ∧ (trace (persistBatch batch author protocolTxId info w) = [] → batch' = batch)
    ∧ (trace (persistBatch batch author protocolTxId info w) ≠ [] →
       Batch_Confirmed batch' = Some (clock w)).
Proof.
  rewrite persistBatch_eq.
  unfold persistBatch_ptr, Now, UpsertBatch, GetTransactionById, returned,
    mbind, M_bind, mret, M_ret. simpl.
  assert (stampedBatch batch (clock w) (Batch_setConfirmed (clock w) batch)) as Hconfirmed.
  { right. eexists. split; [symmetry; apply Batch_setMessages_same|].
    apply stampedEntry_refl. }
  destruct (Batch_ID batch) as [batchID|]; [|by exists batch; repeat split; [left|]].
  destruct (TransactionRef_ID _) as [txID|]; [|by exists batch; repeat split; [left|]].
  destruct (decide (Batch_Hash batch = _)); [|by exists batch; repeat split; [left|]].
  destruct (decide (Batch_Author batch = author));
    [|by exists batch; repeat split; [left|]].
  destruct (upsertBatch _ _ _) as [[err|] db].
  { exists (Batch_setConfirmed (clock w) batch).
    split; [by destruct (decide (err = HashMismatch))|]. by repeat split. }
  simpl. destruct (getTransactionById _ _ _) as [[found gerr] db2]. simpl.
  set (w2 := withDatabase db2 (withDatabase db w)).
  set (batch1 := Batch_setConfirmed (clock w) batch) in *.
  destruct found as [tx|].
  - destruct (subjectMismatch tx author batch1 batchID).
    + exists batch1. by repeat split.
    + destruct (persistBatchWithTransaction_ptr_run batch1 (clock w) protocolTxId info
                  tx w2) as (batch' & Hrun & ms & -> & Hms).
      exists (Batch_setMessages ms batch1). rewrite Hrun.
      destruct (persistBatchWithTransaction _ _ _ _ _ _) as [[r w3] t3].
      split; [done|]. split; [right; by exists ms|]. by split.
  - destruct (persistBatchWithTransaction_ptr_run batch1 (clock w) protocolTxId info
                (newTransaction batch1 author) w2) as (batch' & Hrun & ms & -> & Hms).
    exists (Batch_setMessages ms batch1). rewrite Hrun.
    destruct (persistBatchWithTransaction _ _ _ _ _ _) as [[r w3] t3].
    split; [done|]. split; [right; by exists ms|]. by split.
Qed.

(** X10: [persistBatch] changes the database and stamps the objects behind
    its batch pointer, and nothing else.  The public storage, the context
    and the clock are as they were.  A batch that is skipped on validation
    is left as it was; any other comes back with its confirmation time set
    to the time of the run, also when the run then fails or skips, and
    with each message entry either as it was or stamped with that time and
    the batch's id; its id, namespace, author, hash, transaction reference
    and data entries are never written. *)
Theorem persistBatch_changes_database_and_stamps batch author protocolTxId info w :
  let run := persistBatch_ptr batch author protocolTxId info w in
  let batch' := (result run).2 in
  world run = withDatabase (database (world run)) w
  ∧ stampedBatch batch (clock w) batch'
  ∧ (trace run = [] → batch' = batch)
  ∧ (trace run ≠ [] → Batch_Confirmed batch' = Some (clock w))
  ∧ Batch_ID batch' = Batch_ID batch
  ∧ Batch_Namespace batch' = Batch_Namespace batch
  ∧ Batch_Author batch' = Batch_Author batch
  ∧ Batch_Hash batch' = Batch_Hash batch
  ∧ BatchPayload_TX (Batch_Payload batch') = BatchPayload_TX (Batch_Payload batch)
  ∧ BatchPayload_Data (Batch_Payload batch') = BatchPayload_Data (Batch_Payload batch)
  ∧ length (BatchPayload_Messages (Batch_Payload batch'))
      = length (BatchPayload_Messages (Batch_Payload batch)).
Proof.
  cbv zeta.
  destruct (persistBatch_ptr_run batch author protocolTxId info w)
    as (batch' & Hrun & Hstamped & Hskipped & Hconfirmed).
  destruct (persistBatch_trace_grammar batch author protocolTxId info w)
    as [_ (Hps & Hctx & Hclock)].
  rewrite Hrun.
  destruct (persistBatch batch author protocolTxId info w) as [[r w1] t].
  unfold result, world, trace in *; simpl in *.
  split. { destruct w1 as [d p n c]. unfold withDatabase. simpl in *.
           by rewrite Hps, Hctx, Hclock. }
  split; [done|]. split; [done|]. split; [done|].
  destruct Hstamped as [->|(ms & -> & Hms)]; [done|].
  simpl. repeat split. symmetry. by eapply Forall2_length.
Qed.

(** X21: null entries of the payload are skipped with no effect: the loops
    over the data and over the message entries run exactly as they would on
    the payload with its null entries removed (the index only feeds the
    log lines). *)
Theorem null_entries_are_skipped batch now
    (ds : list (option Data)) (ms : list (option Message)) (i j : nat) w :
  rangeUntilError (persistBatchData batch) i ds w
    = rangeUntilError (persistBatchData batch) j (filter (λ d, d ≠ None) ds) w
  ∧ rangeUntilError (persistBatchMessage batch now) i ms w
      = rangeUntilError (persistBatchMessage batch now) j (filter (λ m, m ≠ None) ms) w.
Proof.
  split.
  - revert i j w. induction ds as [|d ds IH]; intros i j w; [done|].
    rewrite filter_cons. destruct d as [d|].
    + rewrite decide_True by done. rewrite !rangeUntilError_cons, !persistBatchData_eq.
      destruct (Value_Hash _) as [?|hash].
      { rewrite (IH (S i) (S j) w). done. }
      destruct (decide _).
      2:{ rewrite (IH (S i) (S j) w). done. }
      destruct (upsertData _ _ _) as [err db].
      destruct (returned err); [done|].
      by rewrite (IH (S i) (S j) (withDatabase db w)).
    + rewrite decide_False by (by intros ?).
      rewrite rangeUntilError_cons, persistBatchData_eq, (IH (S i) j w).
      by destruct (rangeUntilError _ j _ w) as [[r w2] t2].
  - revert i j w. induction ms as [|m ms IH]; intros i j w; [done|].
    rewrite filter_cons. destruct m as [m|].
    + rewrite decide_True by done.
      rewrite !rangeUntilError_cons, !persistBatchMessage_eq.
      destruct (Message_Verify m).
      { rewrite (IH (S i) (S j) w). done. }
      cbv zeta. destruct (upsertMessage _ _ _) as [err db].
      destruct (returned err); [done|].
      by rewrite (IH (S i) (S j) (withDatabase db w)).
    + rewrite decide_False by (by intros ?).
      rewrite rangeUntilError_cons, persistBatchMessage_eq, (IH (S i) j w).
      by destruct (rangeUntilError _ j _ w) as [[r w2] t2].
Qed.

End Facts.

Import scenario_more.

(** X1 on the batch whose data entry has no id: the store refuses the
    entry, and that failure is what comes back. *)
Lemma persistBatch_error_is_failed_upsert_witness :
  ∃ pre c,
    trace (persistBatch batchWithoutDataID "A" "0x1" ∅ world0) = pre ++ [c]
    ∧ isUpsert c = true ∧ errorOf c = Some (Failure "missing id")
    ∧ Failure "missing id" ≠ HashMismatch.
Proof.
  apply persistBatch_error_is_failed_upsert. vm_compute. reflexivity.
Defined.

(** X4 on the happy path. *)
Lemma persistBatch_data_written_matches_hash_witness :
  false = false
  ∧ Some data1 ∈ BatchPayload_Data (Batch_Payload batch1)
  ∧ hashMatchesValue data1.
Proof.
  apply (persistBatch_data_written_matches_hash batch1 "A" "0x1" ∅ world0
           data1 false None).
  apply (bool_decide_unpack _). vm_compute. exact I.
Defined.

(** X5 on the happy path. *)
Lemma persistBatch_upserts_valid_data_witness :
  omap upsertedData (trace (persistBatch batch1 "A" "0x1" ∅ world0)) = [data1].
Proof.
  refine (persistBatch_upserts_valid_data batch1 "A" "0x1" ∅ world0 transaction1 _ _).
  - vm_compute. reflexivity.
  - apply (bool_decide_unpack _). vm_compute. exact I.
Defined.

(** X6 on the happy path. *)
Lemma persistBatch_message_written_verified_witness :
  false = false
  ∧ Message_BatchID confirmedMessage1 = Some B1
  ∧ Message_Confirmed confirmedMessage1 = Some 1000%Z
  ∧ ∃ entry,
      Some entry ∈ BatchPayload_Messages (Batch_Payload batch1)
      ∧ Message_Verify entry = None
      ∧ confirmedMessage1 = confirmedMessage batch1 1000%Z entry.
Proof.
  apply (persistBatch_message_written_verified batch1 "A" "0x1" ∅ world0
           confirmedMessage1 false None).
  apply (bool_decide_unpack _). vm_compute. exact I.
Defined.

(** X8 on the batch whose data entry has no id: its message is never
    handed to the store. *)
Lemma persistBatch_failed_data_stops_messages_witness :
  result (persistBatch batchWithoutDataID "A" "0x1" ∅ world0)
    = Some (Failure "missing id")
  ∧ omap upsertedMessage (trace (persistBatch batchWithoutDataID "A" "0x1" ∅ world0))
      = [].
Proof.
  apply (persistBatch_failed_data_stops_messages batchWithoutDataID "A" "0x1" ∅ world0
           dataWithoutID false (Failure "missing id")).
  - apply (bool_decide_unpack _). vm_compute. exact I.
  - discriminate.
Defined.

End aggregator_more.

(** * More properties of [SequencedBroadcastBatch] *)

Module sequenced_more.
Import aggregator aggregator_spec aggregator_order aggregator_attempts
  aggregator_facts aggregator_more scenario scenario_more.

Section Facts.
Context {DB PS : Type} `{!Plugin DB} `{!PublicStorage PS} `{!FFTypes}.
Implicit Types (w : @World DB PS).

Lemma SequencedBroadcastBatch_eq batch author protocolTxId info w :
  SequencedBroadcastBatch batch author protocolTxId info w =
    match sliceExpr (BatchID batch) 0 16 with
    | None => (Panicked SliceBoundsOutOfRange, w, [])
    | Some _ =>
        let '((err, body), w1, t1) :=
          retryAttempts (ctxSleeps w) 1 (retrieveAttempt (BatchPaylodRef batch)) None w in
        match err, body with
        | Some e, _ => (Returned (Some e), w1, t1)
        | None, None => (Panicked NilPointerDereference, w1, t1)
        | None, Some body =>
            match decodeBatch body with
            | inl _ => (Returned None, w1, t1)
            | inr None => (Panicked NilPointerDereference, w1, t1)
            | inr (Some batchData) =>
                let '((err2, _), w2, t2) :=
                  retryAttempts (ctxSleeps w1) 1
                    (persistAttempt author protocolTxId info) batchData w1 in
                (Returned err2, w2, t1 ++ t2)
            end
        end
    end.
Proof.
  unfold SequencedBroadcastBatch, retry_Do.
  destruct (sliceExpr _ _ _); [|done].
  unfold mbind at 1. unfold M_bind at 1.
  change (λ (attempt : nat) (_ : option (list byte)),
            res ← RetrieveData (BatchPaylodRef batch);
            match res with
            | inl err => mret (true, Some err, None)
            | inr body => mret (false, None, Some body)
            end)
    with (retrieveAttempt (DB:=DB) (PS:=PS) (BatchPaylodRef batch)).
  destruct (retryAttempts _ 1 (retrieveAttempt _) None w) as [[[err body] w1] t1].
  destruct err as [e|]; [by unfold mret, M_ret; rewrite app_nil_r|].
  destruct body as [body|]; [|by unfold mret, M_ret; rewrite app_nil_r].
  destruct (decodeBatch body) as [?|[batchData|]];
    try by unfold mret, M_ret; rewrite app_nil_r.
  change (λ (attempt : nat) (batchData : Batch),
            '(err, batchData) ← RunAsGroup
                (persistBatch_ptr batchData author protocolTxId info);
            mret (bool_decide (err ≠ None), err, batchData))
    with (persistAttempt (DB:=DB) (PS:=PS) author protocolTxId info).
  unfold mbind, M_bind, mret, M_ret.
  destruct (retryAttempts _ 1 (persistAttempt _ _ _) batchData w1)
    as [[[err2 batchData'] w2] t2].
  by rewrite app_nil_r.
Qed.

Lemma retrieveAttempt_eq (payloadRef : string) attempt (x : option (list byte)) w :
  retrieveAttempt payloadRef attempt x w =
    let '(res, p) := retrieveData payloadRef (publicstorage w) in
    (match res with
     | inl e => (true, Some e, None)
     | inr body => (false, None, Some body)
     end,
     withPublicStorage p w, [CallRetrieveData payloadRef res]).
Proof.
  unfold retrieveAttempt, RetrieveData, mbind, M_bind, mret, M_ret.
  by destruct (retrieveData _ _) as [[e|body] p].
Qed.

(** One attempt of the second retry makes the calls of [persistBatch] on
    the batch it is handed, and asks for a retry exactly when that returned
    an error, which it hands back. *)
Lemma persistAttempt_eq author protocolTxId info attempt (batchData : Batch) w :
  ∃ batchData' w1,
    persistAttempt author protocolTxId info attempt batchData w =
      let '(err, _, t) := persistBatch batchData author protocolTxId info w in
      ((bool_decide (err ≠ None), err, batchData'), w1, t).
Proof.
  unfold persistAttempt, RunAsGroup, mbind, M_bind, mret, M_ret.
  destruct (persistBatch_ptr_run batchData author protocolTxId info w)
    as (batchData' & -> & _).
  destruct (persistBatch batchData author protocolTxId info w) as [[[e|] w1] t];
    eexists _, _; by rewrite app_nil_r.
Qed.

(** The retrievals of the first retry: all but the last failed; the last
    one either brought the body or was followed by the cancellation. *)
Lemma retrieve_retry (payloadRef : string) (sleeps : nat) :
  ∀ attempt (x : option (list byte)) w,
    let run := retryAttempts sleeps attempt (retrieveAttempt payloadRef) x w in
    Forall (λ c, isRetrieveData c = true) (trace run)
    ∧ length (trace run) ≤ S sleeps
    ∧ (∀ pre c post, trace run = pre ++ c :: post → post ≠ [] →
         ∃ e, errorOf c = Some e)
    ∧ match result run with
      | (None, body) =>
          ∃ b pre, body = Some b
                   ∧ trace run = pre ++ [CallRetrieveData payloadRef (inr b)]
      | (Some e, _) => e = ContextCanceled
      end.
Proof.
  induction sleeps as [|n IH]; intros attempt x w; cbv zeta; simpl;
    rewrite retrieveAttempt_eq;
    destruct (retrieveData payloadRef (publicstorage w)) as [[e|body] p]; simpl.
  - unfold trace, result; simpl.
    split; [by repeat constructor|split; [lia|split; [|done]]].
    intros pre c post Heq Hpost. by destruct pre as [|? [|? ?]]; simplify_eq/=.
  - unfold trace, result; simpl.
    split; [by repeat constructor|split; [lia|split]].
    + intros pre c post Heq Hpost. by destruct pre as [|? [|? ?]]; simplify_eq/=.
    + by exists body, [].
  - destruct (IH (S attempt) None (withCtxSleeps n (withPublicStorage p w)))
      as (Hall & Hlen & Hfailed & Hres).
    destruct (retryAttempts n (S attempt) _ None _) as [[[err body] w2] t2].
    unfold trace, result in *; simpl in *. split; [|split; [|split]].
    + by constructor.
    + lia.
    + intros pre c post Heq Hpost. destruct pre as [|c0 pre]; simplify_eq/=.
      * by exists e.
      * by eapply Hfailed.
    + destruct err as [e'|]; [done|].
      destruct Hres as (b & pre & -> & ->).
      by exists b, (CallRetrieveData payloadRef (inl e) :: pre).
  - unfold trace, result; simpl.
    split; [by repeat constructor|split; [lia|split]].
    + intros pre c post Heq Hpost. by destruct pre as [|? [|? ?]]; simplify_eq/=.
    + by exists body, [].
Qed.

(** The second retry makes [persistBatch]'s calls only, and ends without an
    error or with the context's, whatever batch each attempt is handed. *)
Lemma persist_retry author protocolTxId info (sleeps : nat) :
  ∀ attempt (batchData : Batch) w,
    let run := retryAttempts sleeps attempt
                 (persistAttempt author protocolTxId info) batchData w in
    Forall persistBatchCall (trace run)
    ∧ ((result run).1 = None ∨ (result run).1 = Some ContextCanceled).
Proof.
  induction sleeps as [|n IH]; intros attempt batchData w; cbv zeta; simpl;
    destruct (persistAttempt_eq author protocolTxId info attempt batchData w)
      as (batchData' & w1 & ->);
    pose proof (persistBatch_calls batchData author protocolTxId info w) as Hcalls;
    destruct (persistBatch batchData author protocolTxId info w) as [[[e|] w0] t];
    unfold trace, result in *; simpl in *.
  - rewrite ?bool_decide_eq_true_2 by done; simpl. by split; [|right].
  - rewrite ?bool_decide_eq_false_2 by (by intros ?); simpl. by split; [|left].
  - rewrite ?bool_decide_eq_true_2 by done; simpl.
    destruct (IH (S attempt) batchData' (withCtxSleeps n w1)) as [Hall Herr].
    destruct (retryAttempts n (S attempt) _ batchData' _) as [[[err left1] w2] t2].
    simpl in *. split; [by apply Forall_app|done].
  - rewrite ?bool_decide_eq_false_2 by (by intros ?); simpl. by split; [|left].
Qed.

(** X11: the only error [SequencedBroadcastBatch] ever returns is the
    cancellation of its context (with [retry.Do] as the design document
    specifies it): a storage failure or a database failure is retried, an
    undecodable payload is swallowed. *)
Theorem SequencedBroadcastBatch_returns_only_cancellation
    batch author protocolTxId info w e :
  result (SequencedBroadcastBatch batch author protocolTxId info w)
    = Returned (Some e) →
  e = ContextCanceled.
Proof.
  rewrite SequencedBroadcastBatch_eq.
  destruct (sliceExpr _ _ _); [|done].
  destruct (retrieve_retry (BatchPaylodRef batch) (ctxSleeps w) 1 None w)
    as (_ & _ & _ & Hres).
  destruct (retryAttempts _ 1 (retrieveAttempt _) None w) as [[[err body] w1] t1].
  unfold result in *; simpl in *.
  destruct err as [e1|]; [by intros [= <-]|].
  destruct body as [body|]; [|done].
  destruct (decodeBatch body) as [?|[batchData|]]; [done| |done].
  destruct (persist_retry author protocolTxId info (ctxSleeps w1) 1 batchData w1)
    as [_ Herr].
  destruct (retryAttempts _ 1 (persistAttempt _ _ _) batchData w1)
    as [[[err2 batchData'] w2] t2].
  unfold result in *; simpl in *. intros [= ->].
  by destruct Herr as [?|[= ->]].
Qed.

(** X12: the calls of one [SequencedBroadcastBatch] are retrievals of the
    payload followed by database calls of [persistBatch]; there are at most
    one more retrievals than the context allows sleeps, all but the last of
    them failed, and the database is only reached after a retrieval that
    succeeded with a body that decodes to a batch: the payload is never
    fetched again once persisting has begun, and an unreadable or
    undecodable payload leaves the database alone. *)
Theorem SequencedBroadcastBatch_fetches_then_persists
    batch author protocolTxId info w :
  let run := SequencedBroadcastBatch batch author protocolTxId info w in
  ∃ tr td,
    trace run = tr ++ td
    ∧ Forall (λ c, isRetrieveData c = true) tr
    ∧ Forall persistBatchCall td
    ∧ length tr ≤ S (ctxSleeps w)
    ∧ (∀ pre c post, tr = pre ++ c :: post → post ≠ [] → ∃ e, errorOf c = Some e)
    ∧ (td ≠ [] →
       ∃ pre body batchData,
         tr = pre ++ [CallRetrieveData (BatchPaylodRef batch) (inr body)]
         ∧ decodeBatch body = inr (Some batchData)).
Proof.
  cbv zeta. rewrite SequencedBroadcastBatch_eq.
  destruct (sliceExpr _ _ _).
  2:{ exists [], []. repeat split; try constructor; try done; try (simpl; lia).
      intros pre c post Heq. by destruct pre. }
  destruct (retrieve_retry (BatchPaylodRef batch) (ctxSleeps w) 1 None w)
    as (Hall & Hlen & Hfailed & Hres).
  destruct (retryAttempts _ 1 (retrieveAttempt _) None w) as [[[err body] w1] t1].
  unfold result, trace in *; simpl in *.
  assert (∃ tr td,
            t1 = tr ++ td
            ∧ Forall (λ c, isRetrieveData c = true) tr
            ∧ Forall persistBatchCall td
            ∧ length tr ≤ S (ctxSleeps w)
            ∧ (∀ pre c post, tr = pre ++ c :: post → post ≠ [] →
                 ∃ e, errorOf c = Some e)
            ∧ (td ≠ [] →
               ∃ pre body batchData,
                 tr = pre ++ [CallRetrieveData (BatchPaylodRef batch) (inr body)]
                 ∧ decodeBatch body = inr (Some batchData))) as Hstop.
  { exists t1, []. rewrite app_nil_r. repeat split; done. }
  destruct err as [e1|]; [exact Hstop|].
  destruct body as [body|]; [|exact Hstop].
  destruct (decodeBatch body) as [?|[batchData|]] eqn:Hdec;
    [exact Hstop| |exact Hstop].
  destruct (persist_retry author protocolTxId info (ctxSleeps w1) 1 batchData w1)
    as [Hcalls _].
  destruct (retryAttempts _ 1 (persistAttempt _ _ _) batchData w1)
    as [[[err2 batchData'] w2] t2].
  unfold trace in *; simpl in *.
  exists t1, t2. repeat split; try done.
  intros _. destruct Hres as (got & pre & [= <-] & ->). by exists pre, body, batchData.
Qed.

End Facts.

(** X11 on a content store that is down while the context is cancelled
    during the first sleep. *)
Lemma SequencedBroadcastBatch_returns_only_cancellation_witness :
  ContextCanceled = ContextCanceled.
Proof.
  apply (SequencedBroadcastBatch_returns_only_cancellation broadcast1 "A" "0x1" ∅
           worldCancelled ContextCanceled).
  vm_compute. reflexivity.
Defined.

End sequenced_more.

(** * More properties of the WebSocket transport *)

Module websockets_more.
Import websockets websockets_transport scenario.

Section Start.
Context {CB : Type} `{!Callbacks CB}.

(** X14: [start] calls into the connection manager at most once.  It
    registers a connection only for a payload that is not ephemeral and has
    both a namespace and a name, under the id it was given, with a matcher
    that admits at most one subscription reference; it creates an ephemeral
    subscription only for an ephemeral payload, with that payload's filter
    and options. *)
Theorem start_calls_are_justified
    (connID : string) (s : WSClientActionStartPayload) (cb : CB) :
  length (start connID s cb).2 ≤ 1
  ∧ Forall (λ c,
      match c with
      | CallRegisterConnection id m =>
          id = connID
          ∧ WSClientActionStartPayload_Ephemeral s = false
          ∧ WSClientActionStartPayload_Namespace s ≠ EmptyString
          ∧ WSClientActionStartPayload_Name s ≠ EmptyString
          ∧ ∀ sr1 sr2, m sr1 = true → m sr2 = true → sr1 = sr2
      | CallEphemeralSubscription id filter options =>
          id = connID
          ∧ WSClientActionStartPayload_Ephemeral s = true
          ∧ filter = WSClientActionStartPayload_Filter s
          ∧ options = WSClientActionStartPayload_Options s
      end) (start connID s cb).2.
Proof.
  unfold start.
  destruct (WSClientActionStartPayload_Ephemeral s) eqn:Heph.
  { destruct (EphemeralSubscription _ _ _ _). simpl. split; [lia|]. by repeat constructor. }
  destruct (bool_decide (WSClientActionStartPayload_Namespace s = "")) eqn:Hns; simpl.
  { split; [lia|constructor]. }
  destruct (bool_decide (WSClientActionStartPayload_Name s = "")) eqn:Hname; simpl.
  { split; [lia|constructor]. }
  destruct (RegisterConnection _ _ _). simpl. split; [lia|].
  apply bool_decide_eq_false in Hns, Hname.
  apply Forall_singleton. repeat split; try done.
  intros [ns1 n1] [ns2 n2] [H1 H1']%websockets_facts.matcher_admits
    [H2 H2']%websockets_facts.matcher_admits.
  simpl in *. congruence.
Qed.

End Start.

Section Transport.
Context {Conn Delivery CB Response : Type}
  `{!Connection Conn Delivery} `{!ManagerCallbacks CB Response}.
Implicit Types (ws : WebSockets (Conn:=Conn) (CB:=CB)).

Lemma step_keeps_inactive (op : Op (Delivery:=Delivery) (Response:=Response))
    (connID : string) ws :
  connections ws !! connID = None → connections (step op ws) !! connID = None.
Proof.
  intros Hnone. destruct op as [id event|id inflight|id]; simpl.
  - unfold DeliveryRequest. destruct (connections ws !! id) as [conn|] eqn:Hid; [|done].
    destruct (dispatch event conn) as [err conn1]. simpl.
    rewrite lookup_insert_ne; [done|]. intros ->. congruence.
  - unfold ack. by destruct (DeliveryResponse _ _ _).
  - unfold connClosed. simpl. rewrite lookup_delete. by case_decide.
Qed.

Lemma steps_keep_inactive (ops : list (Op (Delivery:=Delivery) (Response:=Response)))
    (connID : string) ws :
  connections ws !! connID = None → connections (steps ops ws) !! connID = None.
Proof.
  revert ws. induction ops as [|op ops IH]; intros ws Hnone; [done|].
  simpl. apply IH. by apply step_keeps_inactive.
Qed.

(** X15: once [connClosed] has run for a connection, no later delivery
    request, ack or close brings it back: every later [DeliveryRequest] for
    it fails with the connection-not-active error and changes nothing. *)
Theorem closed_connection_stays_inactive
    (connID : string) (event : Delivery)
    (ops : list (Op (Delivery:=Delivery) (Response:=Response))) ws :
  OpConnClosed connID ∈ ops →
  DeliveryRequest connID event (steps ops ws)
    = (Some (MsgWSConnectionNotActive connID), steps ops ws).
Proof.
  intros Hin. apply list_elem_of_split in Hin as (pre & post & ->).
  assert (connections (steps (pre ++ OpConnClosed connID :: post) ws) !! connID = None)
    as Hnone.
  { unfold steps. rewrite foldl_app. simpl. apply steps_keep_inactive.
    unfold connClosed. simpl. apply lookup_delete_eq. }
  unfold DeliveryRequest. by rewrite Hnone.
Qed.

(** X16: a [DeliveryRequest] touches the addressed connection only: the
    connection manager, the set of active connection ids and every other
    connection are as they were; for an id that is not active it fails with
    the connection-not-active error and leaves the transport as it was. *)
Theorem DeliveryRequest_touches_one_connection
    (connID : string) (event : Delivery) ws :
  let ws' := (DeliveryRequest connID event ws).2 in
  callbacks ws' = callbacks ws
  ∧ dom (connections ws') = dom (connections ws)
  ∧ (∀ other, other ≠ connID → connections ws' !! other = connections ws !! other)
  ∧ (connections ws !! connID = None →
     DeliveryRequest connID event ws = (Some (MsgWSConnectionNotActive connID), ws)).
Proof.
  cbv zeta. unfold DeliveryRequest.
  destruct (connections ws !! connID) as [conn|] eqn:Hid; [|done].
  destruct (dispatch event conn) as [err conn1]. simpl.
  repeat split; [| |done].
  - apply dom_insert_lookup_L. eauto.
  - intros other Hother. by rewrite lookup_insert_ne.
Qed.

(** X17: closing one connection does not disturb the others: a delivery to
    any other connection is dispatched with the same outcome as before the
    close, and the closed one is the only id that left the map. *)
Theorem connClosed_leaves_others
    (connID other : string) (event : Delivery) ws :
  other ≠ connID →
  (DeliveryRequest other event (connClosed connID ws)).1
    = (DeliveryRequest other event ws).1
  ∧ dom (connections (connClosed connID ws)) = dom (connections ws) ∖ {[connID]}.
Proof.
  intros Hother. split.
  - unfold DeliveryRequest, connClosed. simpl.
    rewrite lookup_delete_ne by done.
    destruct (connections ws !! other) as [conn|]; [|done].
    by destruct (dispatch event conn).
  - unfold connClosed. simpl. apply dom_delete_L.
Qed.

End Transport.

(** X15 on two connections: [conn1] is closed, then a delivery for [conn2]
    goes through, then one for [conn1] is refused. *)
Lemma closed_connection_stays_inactive_witness :
  (DeliveryRequest "conn1" 5
     (steps [OpConnClosed "conn1"; OpDeliveryRequest "conn2" 3] twoConnections)).1
  = Some (MsgWSConnectionNotActive "conn1").
Proof.
  rewrite (closed_connection_stays_inactive "conn1" 5
             [OpConnClosed "conn1"; OpDeliveryRequest "conn2" 3] twoConnections).
  - reflexivity.
  - apply list_elem_of_here.
Defined.

(** X17 on two connections: with [conn1] closed, [conn2] still takes a
    delivery. *)
Lemma connClosed_leaves_others_witness :
  (DeliveryRequest "conn2" 3 (connClosed "conn1" twoConnections)).1 = None.
Proof.
  rewrite (proj1 (connClosed_leaves_others "conn1" "conn2" 3 twoConnections
                    ltac:(discriminate))).
  vm_compute. reflexivity.
Defined.

End websockets_more.

(** * More properties of the consumer client *)

Module event_streams_more.
Import event_streams event_streams_run scenario.

Section Facts.
Context {H : Type} `{!Imports H} (config : Config).

(** X18: [handleMessage] takes the events of a frame in array order and
    stops at the first handler that throws: the events of [xs ++ ys] are
    those of [xs] and then, only if none of them threw, those of [ys], on
    the state the handlers of [xs] left. *)
Theorem forOf_app (xs ys : list IEventStreamMessage) (h : H) :
  forOf (xs ++ ys) h =
    let '(h1, ok) := forOf xs h in
    if ok then forOf ys h1 else (h1, false).
Proof.
  revert h. induction xs as [|x xs IH]; intros h; simpl.
  { by destruct (forOf ys h). }
  destruct (dispatch x h) as [h1 [|]]; [apply IH|done].
Qed.

Lemma dispatch_unhandled (message : IEventStreamMessage) (h : H) :
  unhandled message → dispatch message h = (h, true).
Proof.
  intros (H1 & H2 & H3 & H4 & H5). unfold dispatch.
  by rewrite !bool_decide_eq_false_2.
Qed.

Lemma forOf_unhandled (messageArray : list IEventStreamMessage) (h : H) :
  Forall unhandled messageArray → forOf messageArray h = (h, true).
Proof.
  induction 1 as [|m ms Hm _ IH]; simpl; [done|].
  by rewrite dispatch_unhandled.
Qed.

(** X19: a frame that parses to events whose signatures are none of the
    five the client knows is acknowledged all the same: no handler runs,
    and the one frame written is the ack for the configured topic. *)
Theorem unknown_events_are_acknowledged
    (frame : string) (messageArray : list IEventStreamMessage) (c : Client) :
  JSON_parse frame = Some messageArray →
  Forall unhandled messageArray →
  handlers (onMessage config frame c) = handlers c
  ∧ sent (onMessage config frame c) = sent c ++ [JSON_stringify (ackFrame config)].
Proof.
  intros Hparse Hall. unfold onMessage, handleMessage.
  by rewrite Hparse, forOf_unhandled.
Qed.

(** X20: over any run of socket events the client only ever appends to what
    it has written, every frame it writes is the listen frame or the ack
    frame for the configured topic, and it writes at most one frame per
    ['open'] or ['message'] event and none on ['close'] or ['error']. *)
Theorem client_writes_listen_and_ack_only (evs : list SocketEvent) (c : Client) :
  ∃ new,
    sent (emitAll config evs c) = sent c ++ new
    ∧ Forall (λ frame, frame = JSON_stringify (listenFrame config)
                       ∨ frame = JSON_stringify (ackFrame config)) new
    ∧ length new ≤ length (filter (λ ev, isOpenOrMessage ev = true) evs).
Proof.
  revert c. induction evs as [|ev evs IH]; intros c.
  { exists []. rewrite app_nil_r. split; [done|split; [done|simpl; lia]]. }
  assert (∃ first, sent (emit config ev c) = sent c ++ first
                   ∧ Forall (λ frame, frame = JSON_stringify (listenFrame config)
                                      ∨ frame = JSON_stringify (ackFrame config)) first
                   ∧ length first ≤ (if isOpenOrMessage ev then 1 else 0))
    as (first & Hfirst & Hok & Hlen).
  { destruct ev as [| |message|err]; simpl.
    - exists [JSON_stringify (listenFrame config)].
      split; [done|split; [|simpl; lia]].
      apply Forall_singleton. by left.
    - exists []. rewrite app_nil_r. split; [done|split; [done|simpl; lia]].
    - unfold onMessage. destruct (handleMessage message (handlers c)) as [h [|]]; simpl.
      + exists [JSON_stringify (ackFrame config)].
        split; [done|split; [|simpl; lia]].
        apply Forall_singleton. by right.
      + exists []. rewrite app_nil_r. split; [done|split; [done|simpl; lia]].
    - exists []. rewrite app_nil_r. split; [done|split; [done|simpl; lia]]. }
  destruct (IH (emit config ev c)) as (rest & Hrest & Hokr & Hlenr).
  exists (first ++ rest). simpl. rewrite Hrest, Hfirst, app_assoc.
  split; [done|split; [by apply Forall_app|]].
  rewrite length_app, filter_cons. destruct (isOpenOrMessage ev).
  - rewrite decide_True by done. simpl. lia.
  - rewrite decide_False by done. lia.
Qed.

End Facts.

(** X19 on a frame that delivers one token transfer: the count of handled
    events stays at 0, and the ack is written. *)
Lemma unknown_events_are_acknowledged_witness :
  handlers (onMessage config1 (frameOf [tokenTransfer]) client0) = 0
  ∧ sent (onMessage config1 (frameOf [tokenTransfer]) client0)
      = [JSON_stringify (ackFrame config1)].
Proof.
  apply (unknown_events_are_acknowledged config1 (frameOf [tokenTransfer])
           [tokenTransfer] client0).
  - vm_compute. reflexivity.
  - apply Forall_singleton. repeat split; discriminate.
Defined.

End event_streams_more.
